(** * A deterministic pushdown automaton simulator: engine and definition parser

    Shallow embedding of [automata.py].  Python strings are [string]s whose
    characters are code points below 256; Python lists are [list]s in the
    same order (the top of the automaton's stack is the LAST element, as
    [append]/[pop] have it); dictionaries are [gmap]s; the mutable
    attributes of an [Automata] object are threaded explicitly: [simulate]
    returns the outcome of the call together with the object as the call
    leaves it. *)

From Stdlib Require Import Ascii String NArith Lia Permutation.
From stdpp Require Import base option list countable gmap strings.

Local Open Scope string_scope.
Local Open Scope list_scope.

(** ** Constants *)

Definition STACK_END : string := ">".
Definition INPUT_END : string := "<".

(** ** Exceptions and outcomes *)

(** The exceptions the modelled code can raise.  [ValueError cs sts] stands
    for the message [f"State {cs} not in states {sts}"]: it carries the two
    interpolated values.  [KeyError k] carries the missing key and
    [UnboundLocalError x] the name of the unassigned local variable. *)
Inductive exn : Type :=
| IndexError
| KeyError (key : string)
| ValueError (current_state : string) (states : list string)
| UnboundLocalError (name : string).

Inductive outcome (A : Type) : Type :=
| Return (x : A)
| Raise (e : exn).
Arguments Return {A} x.
Arguments Raise {A} e.

(** ** Transition table model *)

Record TransitionFunctionValue : Type := mkValue {
  next_state : string;
  symbols_to_push : list string
}.

Record TransitionFunctionInput : Type := mkInput {
  input_symbol : string;
  stack_top : string
}.

(** [__eq__] compares both components and [__hash__] hashes the pair. *)
#[global] Instance TransitionFunctionInput_eq_dec : EqDecision TransitionFunctionInput.
Proof. solve_decision. Defined.

#[global] Instance TransitionFunctionInput_countable : Countable TransitionFunctionInput.
Proof.
  refine (inj_countable' (λ k, (input_symbol k, stack_top k))
                         (λ p, mkInput p.1 p.2) _).
  by intros [].
Defined.

(** ** The automaton object *)

Record Automata : Type := mkAutomata {
  state : string;
  stack : list string;
  transitions : gmap string (gmap TransitionFunctionInput TransitionFunctionValue);
  states : list string;
  alphabet : list string;
  final_states : list string;
  rejecting_states : list string;
  initial_state : string
}.

(** [l[0]] and [l[-1]]. *)
Definition first_item {A} (l : list A) : outcome A :=
  match l with
  | x :: _ => Return x
  | [] => Raise IndexError
  end.

Definition last_item {A} (l : list A) : outcome A :=
  match last l with
  | Some x => Return x
  | None => Raise IndexError
  end.

(** [Automata.__init__]; [None] arguments are defaulted from [states]. *)
Definition Automata_init
    (states : list string) (alphabet : list string)
    (transitions : gmap string (gmap TransitionFunctionInput TransitionFunctionValue))
    (initial_state : option string) (final_states : option (list string))
    (rejecting_states : list string) : outcome Automata :=
  match (match initial_state with
         | None => first_item states
         | Some s => Return s
         end) with
  | Raise e => Raise e
  | Return initial_state =>
    match (match final_states with
           | None => match last_item states with
                     | Return s => Return [s]
                     | Raise e => Raise e
                     end
           | Some fs => Return fs
           end) with
    | Raise e => Raise e
    | Return final_states =>
      Return {| state := initial_state;
                stack := [] ++ [STACK_END];
                transitions := transitions;
                states := states;
                alphabet := alphabet;
                final_states := final_states;
                rejecting_states := rejecting_states;
                initial_state := initial_state |}
    end
  end.

(** [list.pop()]: the last element and the list without it. *)
Definition list_pop {A} (l : list A) : option (A * list A) :=
  match last l with
  | Some x => Some (x, removelast l)
  | None => None
  end.

Definition set_stack (a : Automata) (stk : list string) : Automata :=
  {| state := state a; stack := stk; transitions := transitions a;
     states := states a; alphabet := alphabet a;
     final_states := final_states a;
     rejecting_states := rejecting_states a;
     initial_state := initial_state a |}.

Definition set_state (a : Automata) (q : string) : Automata :=
  {| state := q; stack := stack a; transitions := transitions a;
     states := states a; alphabet := alphabet a;
     final_states := final_states a;
     rejecting_states := rejecting_states a;
     initial_state := initial_state a |}.

(** ** [Automata.simulate] *)

(** One iteration of the [for symbol in input_string] loop either falls
    through to the next iteration or leaves the function. *)
Inductive iteration : Type :=
| Continue (a : Automata)
| Stop (r : outcome bool) (a : Automata).

(** The loop body.  The object handed back is the object as mutated so far:
    the stack stays popped when the lookup fails or raises. *)
Definition loop_body (a : Automata) (symbol : string) : iteration :=
  if bool_decide (symbol ∈ alphabet a) then
    match list_pop (stack a) with
    | None => Stop (Raise IndexError) a
    | Some (top, stk) =>
      let a := set_stack a stk in
      let transition_input := mkInput symbol top in
      match transitions a !! state a with
      | None => Stop (Raise (KeyError (state a))) a
      | Some table =>
        match table !! transition_input with
        | Some transition_value =>
          let a := set_state a (next_state transition_value) in
          let a := set_stack a (stack a ++ symbols_to_push transition_value) in
          if bool_decide (state a ∈ rejecting_states a) then
            Stop (Return false) a
          else if bool_decide (state a ∈ final_states a) then
            Stop (Return true) a
          else Continue a
        | None => Stop (Return false) a
        end
      end
    end
  else Stop (Return false) a.

Fixpoint loop (a : Automata) (input_string : list string) : iteration :=
  match input_string with
  | [] => Continue a
  | symbol :: rest =>
    match loop_body a symbol with
    | Continue a' => loop a' rest
    | Stop r a' => Stop r a'
    end
  end.

(** The statement after the loop: [state in final_states or stack[-1] ==
    STACK_END]; [stack[-1]] is evaluated only when the first test fails. *)
Definition after_loop (a : Automata) : outcome bool :=
  if bool_decide (state a ∈ final_states a) then Return true
  else match last_item (stack a) with
       | Return top => Return (bool_decide (top = STACK_END))
       | Raise e => Raise e
       end.

Definition simulate (a : Automata) (input_string : list string)
  : outcome bool * Automata :=
  match loop a input_string with
  | Stop r a' => (r, a')
  | Continue a' => (after_loop a', a')
  end.

(** ** The automaton built in the [__main__] block *)

(** A dictionary display [{k1: v1, k2: v2, ...}]: entries are stored in
    order, a later entry replacing an earlier one with an equal key. *)
Definition dict_display `{Countable K} {V} (items : list (K * V)) : gmap K V :=
  foldl (λ d kv, <[kv.1 := kv.2]> d) ∅ items.

Definition transition_function
  : gmap string (gmap TransitionFunctionInput TransitionFunctionValue) :=
  dict_display [
    ("q0", dict_display [
       (mkInput "0" STACK_END, mkValue "q1" [">"; "0"]);
       (mkInput "0" "0", mkValue "q1" ["0"; "0"]);
       (mkInput "0" "1", mkValue "q1" []);
       (mkInput "1" STACK_END, mkValue "q0" [">"; "1"]);
       (mkInput "1" "0", mkValue "q0" []);
       (mkInput "1" "1", mkValue "q0" ["1"; "1"]);
       (mkInput INPUT_END STACK_END, mkValue "qA" [">"]);
       (mkInput INPUT_END "0", mkValue "qR" []);
       (mkInput INPUT_END "1", mkValue "qR" [])]);
    ("q1", dict_display [
       (mkInput "0" STACK_END, mkValue "q0" [">"]);
       (mkInput "0" "0", mkValue "q0" ["0"]);
       (mkInput "0" "1", mkValue "q0" ["1"]);
       (mkInput "1" STACK_END, mkValue "q1" [STACK_END; "1"]);
       (mkInput "1" "0", mkValue "q1" []);
       (mkInput "1" "1", mkValue "q1" ["1"; "1"]);
       (mkInput INPUT_END STACK_END, mkValue "qR" [">"]);
       (mkInput INPUT_END "0", mkValue "qR" ["0"]);
       (mkInput INPUT_END "1", mkValue "qR" ["1"])])].

(** The arguments of the [Automata(...)] call of the [__main__] block. *)
Definition main_automata : outcome Automata :=
  Automata_init ["q0"; "q1"; "qR"; "qA"] ["0"; "1"; "<"] transition_function
                (Some "q0") (Some ["qA"]) ["qR"].

(** The object that call returns. *)
Definition automata : Automata :=
  {| state := "q0"; stack := [STACK_END];
     transitions := transition_function;
     states := ["q0"; "q1"; "qR"; "qA"];
     alphabet := ["0"; "1"; "<"];
     final_states := ["qA"];
     rejecting_states := ["qR"];
     initial_state := "q0" |}.


(** ** String operations used by the parser *)

Definition code (c : ascii) : N := N_of_ascii c.

(** [str.isspace] on one character. *)
Definition is_space (c : ascii) : bool :=
  let n := code c in
  ((9 <=? n) && (n <=? 13) || (28 <=? n) && (n <=? 32)
   || (n =? 133) || (n =? 160))%N.

(** The class [\w] of a [str] pattern: alphanumeric characters and [_]. *)
Definition is_word (c : ascii) : bool :=
  let n := code c in
  ((48 <=? n) && (n <=? 57) || (65 <=? n) && (n <=? 90) || (n =? 95)
   || (97 <=? n) && (n <=? 122)
   || (n =? 170) || (n =? 178) || (n =? 179) || (n =? 181) || (n =? 185)
   || (n =? 186) || (188 <=? n) && (n <=? 190)
   || (192 <=? n) && (n <=? 214) || (216 <=? n) && (n <=? 246)
   || (248 <=? n) && (n <=? 255))%N.

(** The class [.]: anything but a newline. *)
Definition is_dot (c : ascii) : bool := negb (code c =? 10)%N.

Fixpoint lstrip (s : string) : string :=
  match s with
  | String c s' => if is_space c then lstrip s' else s
  | EmptyString => EmptyString
  end.

Fixpoint rstrip (s : string) : string :=
  match s with
  | String c s' =>
    match rstrip s' with
    | EmptyString => if is_space c then EmptyString else String c EmptyString
    | r => String c r
    end
  | EmptyString => EmptyString
  end.

(** [s.strip()] *)
Definition strip (s : string) : string := rstrip (lstrip s).

(** [s.startswith(p)] *)
Fixpoint startswith (s p : string) {struct p} : bool :=
  match p, s with
  | EmptyString, _ => true
  | String a p', String b s' => Ascii.eqb a b && startswith s' p'
  | String _ _, EmptyString => false
  end.

(** [sub in s] *)
Fixpoint contains (s sub : string) : bool :=
  startswith s sub ||
  match s with
  | String _ s' => contains s' sub
  | EmptyString => false
  end.

(** [s[:-1]] *)
Fixpoint drop_last (s : string) : string :=
  match s with
  | String c EmptyString => EmptyString
  | String c s' => String c (drop_last s')
  | EmptyString => EmptyString
  end.

(** [s.split(sep)] for a non-empty [sep]: the text is cut at every
    occurrence of [sep], found from left to right without overlap.  [piece]
    is the text since the last cut and [skip] counts the characters of a
    separator that remain to be passed over. *)
Fixpoint split_from (sep : string) (skip : nat) (piece : string) (s : string)
  : list string :=
  match s with
  | EmptyString => [piece]
  | String c s' =>
    match skip with
    | S k => split_from sep k piece s'
    | O =>
      if startswith s sep
      then piece :: split_from sep (String.length sep - 1) EmptyString s'
      else split_from sep 0 (piece +:+ String c EmptyString) s'
    end
  end.

Definition split (s sep : string) : list string :=
  split_from sep 0 EmptyString s.

Fixpoint string_take (n : nat) (s : string) : string :=
  match n, s with
  | S n', String c s' => String c (string_take n' s')
  | _, _ => EmptyString
  end.

Fixpoint string_drop (n : nat) (s : string) : string :=
  match n, s with
  | S n', String _ s' => string_drop n' s'
  | _, _ => s
  end.

(** ** The two regular expressions of the parser

    Both patterns are sequences of literals and of greedy repetitions of a
    one-character class, so [re.match] is modelled by a matcher for such
    sequences.  A repetition first takes the longest run of characters of
    its class and gives characters back one at a time until the rest of the
    pattern matches.  Every repetition is reported as a group. *)

Inductive item : Type :=
| Lit (s : string)                       (* literal text *)
| Many (cls : ascii → bool) (min : nat)  (* [c+] is [Many c 1], [c*] is [Many c 0] *)
| Eos.                                   (* [$] *)

Fixpoint run_length (cls : ascii → bool) (s : string) : nat :=
  match s with
  | String c s' => if cls c then S (run_length cls s') else 0
  | EmptyString => 0
  end.

(** Try [f k], [f (k-1)], ... down to [f min]; the first success wins. *)
Fixpoint give_back {X} (k min : nat) (f : nat → option X) : option X :=
  if (k <? min)%nat then None
  else match f k with
       | Some x => Some x
       | None => match k with
                 | S k' => give_back k' min f
                 | O => None
                 end
       end.

(** [re.match(p, s)]: the match is anchored at the start of [s] only; the
    result is the list of groups.  [$] matches at the end of the text and
    before a newline that ends it. *)
Fixpoint re_match (p : list item) (s : string) : option (list string) :=
  match p with
  | [] => Some []
  | Lit l :: p' =>
    if startswith s l then re_match p' (string_drop (String.length l) s)
    else None
  | Many cls min :: p' =>
    give_back (run_length cls s) min
      (λ k, match re_match p' (string_drop k s) with
            | Some groups => Some (string_take k s :: groups)
            | None => None
            end)
  | Eos :: p' =>
    if bool_decide (s = EmptyString) || bool_decide (s = String "010" EmptyString)
    then re_match p' s else None
  end.

(** The pattern "^\w+:$". *)
Definition state_header_re : list item :=
  [Many is_word 1; Lit ":"; Eos].

(** The pattern of a transition line, written here with its tokens apart
    (SP is one space):
      \( (.+) , SP (.+) \) SP - > SP (\w+) SP \[ ( .* ) \]            *)
Definition transition_re : list item :=
  [Lit "("; Many is_dot 1; Lit ", "; Many is_dot 1; Lit ") -> ";
   Many is_word 1; Lit " ["; Many is_dot 0; Lit "]"].

(** ** [Automata.create_from_file] *)

#[global] Instance outcome_ret : MRet outcome := λ _ x, Return x.
#[global] Instance outcome_bind : MBind outcome := λ _ _ f m,
  match m with
  | Return x => f x
  | Raise e => Raise e
  end.
#[global] Instance outcome_fmap : FMap outcome := λ _ _ f m,
  match m with
  | Return x => Return (f x)
  | Raise e => Raise e
  end.

(** A local variable that is assigned on some paths only. *)
Inductive binding : Type :=
| Unbound
| NoneValue
| StrValue (s : string).

(** The local variables of [create_from_file] that the loop over the lines
    reads and writes. *)
Record locals : Type := mkLocals {
  l_states : list string;
  l_alphabet : list string;
  l_initial_state : option string;
  l_final_states : list string;
  l_rejecting_states : list string;
  l_transition_function :
    gmap string (gmap TransitionFunctionInput TransitionFunctionValue);
  l_current_state : binding
}.

Definition initial_locals : locals :=
  {| l_states := []; l_alphabet := []; l_initial_state := None;
     l_final_states := []; l_rejecting_states := [];
     l_transition_function := ∅; l_current_state := Unbound |}.

(** [l[1]] *)
Definition item_1 {A} (l : list A) : outcome A :=
  match l with
  | _ :: x :: _ => Return x
  | _ => Raise IndexError
  end.

(** [line.split(":")[1].strip()] *)
Definition field_text (line : string) : outcome string :=
  x ← item_1 (split line ":"); Return (strip x).

(** The substitution applied to the stack-top group of a transition line. *)
Definition rewrite_stack_top (stack_top : string) : string :=
  if bool_decide (stack_top = "STACK_END") then STACK_END
  else if bool_decide (stack_top = "INPUT_END") then INPUT_END
  else stack_top.

(** The [lambda] mapped over the entries of the push list. *)
Definition rewrite_push_entry (x : string) : string :=
  if bool_decide (strip x = "STACK_END") then STACK_END
  else if bool_decide (strip x = "INPUT_END") then INPUT_END
  else strip x.

(** [transition_function[current_state][key] = value] on a
    [defaultdict(dict)]. *)
Definition store_transition
    (tf : gmap string (gmap TransitionFunctionInput TransitionFunctionValue))
    (current_state : string)
    (key : TransitionFunctionInput) (value : TransitionFunctionValue)
  : gmap string (gmap TransitionFunctionInput TransitionFunctionValue) :=
  <[current_state := <[key := value]> (default ∅ (tf !! current_state))]> tf.

(** The body of the [if match:] statement. *)
Definition transition_line (v : locals) (current_state : string)
    (groups : list string) : locals :=
  match groups with
  | [input_symbol; stack_top; next_state; stack_action] =>
    let stack_top := rewrite_stack_top stack_top in
    let stack_action :=
      if bool_decide (stack_action = EmptyString) then []
      else split stack_action ", " in
    let stack_action :=
      match stack_action with
      | [] => stack_action
      | _ => map rewrite_push_entry stack_action
      end in
    {| l_states := l_states v; l_alphabet := l_alphabet v;
       l_initial_state := l_initial_state v;
       l_final_states := l_final_states v;
       l_rejecting_states := l_rejecting_states v;
       l_transition_function :=
         store_transition (l_transition_function v) current_state
           (mkInput input_symbol stack_top) (mkValue next_state stack_action);
       l_current_state := l_current_state v |}
  | _ => v
  end.

(** The body of the [for line in lines] loop. *)
Definition line_body (v : locals) (line : string) : outcome locals :=
  let line := strip line in
  if startswith line "#" || bool_decide (line = EmptyString) then Return v
  else if startswith line "states:" then
    x ← field_text line;
    Return {| l_states := split x ", "; l_alphabet := l_alphabet v;
              l_initial_state := l_initial_state v;
              l_final_states := l_final_states v;
              l_rejecting_states := l_rejecting_states v;
              l_transition_function := l_transition_function v;
              l_current_state := l_current_state v |}
  else if startswith line "alphabet:" then
    x ← field_text line;
    Return {| l_states := l_states v; l_alphabet := split x ", ";
              l_initial_state := l_initial_state v;
              l_final_states := l_final_states v;
              l_rejecting_states := l_rejecting_states v;
              l_transition_function := l_transition_function v;
              l_current_state := l_current_state v |}
  else if startswith line "initial_state:" then
    x ← field_text line;
    Return {| l_states := l_states v; l_alphabet := l_alphabet v;
              l_initial_state := Some x;
              l_final_states := l_final_states v;
              l_rejecting_states := l_rejecting_states v;
              l_transition_function := l_transition_function v;
              l_current_state := l_current_state v |}
  else if startswith line "final_states:" then
    x ← field_text line;
    Return {| l_states := l_states v; l_alphabet := l_alphabet v;
              l_initial_state := l_initial_state v;
              l_final_states := split x ", ";
              l_rejecting_states := l_rejecting_states v;
              l_transition_function := l_transition_function v;
              l_current_state := l_current_state v |}
  else if startswith line "rejecting_states:" then
    x ← field_text line;
    Return {| l_states := l_states v; l_alphabet := l_alphabet v;
              l_initial_state := l_initial_state v;
              l_final_states := l_final_states v;
              l_rejecting_states := split x ", ";
              l_transition_function := l_transition_function v;
              l_current_state := l_current_state v |}
  else if startswith line "transition_function:" then
    Return {| l_states := l_states v; l_alphabet := l_alphabet v;
              l_initial_state := l_initial_state v;
              l_final_states := l_final_states v;
              l_rejecting_states := l_rejecting_states v;
              l_transition_function := l_transition_function v;
              l_current_state := NoneValue |}
  else if bool_decide (is_Some (re_match state_header_re line)) then
    let current_state := drop_last line in
    if bool_decide (current_state ∈ l_states v) then
      Return {| l_states := l_states v; l_alphabet := l_alphabet v;
                l_initial_state := l_initial_state v;
                l_final_states := l_final_states v;
                l_rejecting_states := l_rejecting_states v;
                l_transition_function := l_transition_function v;
                l_current_state := StrValue current_state |}
    else Raise (ValueError current_state (l_states v))
  else
    match l_current_state v with
    | Unbound => Raise (UnboundLocalError "current_state")
    | NoneValue => Return v
    | StrValue current_state =>
      if negb (bool_decide (current_state = EmptyString))
         && contains line "->"
      then match re_match transition_re line with
           | Some groups => Return (transition_line v current_state groups)
           | None => Return v
           end
      else Return v
    end.

Fixpoint for_lines (v : locals) (lines : list string) : outcome locals :=
  match lines with
  | [] => Return v
  | line :: rest => v' ← line_body v line; for_lines v' rest
  end.

(** [create_from_file], from the list [lines] that [file.readlines()]
    returns on. *)
Definition create_from_file (lines : list string) : outcome Automata :=
  v ← for_lines initial_locals lines;
  Automata_init (l_states v) (l_alphabet v) (l_transition_function v)
                (l_initial_state v) (Some (l_final_states v))
                (l_rejecting_states v).


(** ** Auxiliary notions for the statements below *)

(** The object a matched transition leaves behind: [stk] is the stack after
    the pop and [v] the action found. *)
Definition moved (a : Automata) (stk : list string)
    (v : TransitionFunctionValue) : Automata :=
  {| state := next_state v; stack := stk ++ symbols_to_push v;
     transitions := transitions a; states := states a;
     alphabet := alphabet a; final_states := final_states a;
     rejecting_states := rejecting_states a;
     initial_state := initial_state a |}.

(** The object an iteration, or a run of the loop, leaves behind. *)
Definition left_by (it : iteration) : Automata :=
  match it with
  | Continue a => a
  | Stop _ a => a
  end.

(** Two objects agree on the attributes that [simulate] never assigns. *)
Definition same_definition (a a' : Automata) : Prop :=
  transitions a' = transitions a ∧ states a' = states a ∧
  alphabet a' = alphabet a ∧ final_states a' = final_states a ∧
  rejecting_states a' = rejecting_states a ∧
  initial_state a' = initial_state a.

(** No action of the table is a pure pop: every push list has an entry. *)
Definition no_pure_pop (a : Automata) : Prop :=
  ∀ q table key value,
    transitions a !! q = Some table → table !! key = Some value →
    symbols_to_push value ≠ [].

(** A small automaton over the alphabet [{a}], with neither final nor
    rejecting states, whose only transition pops the sentinel in state q0,
    pushes [pushes] and leads to state [target]. *)
Definition one_move (target : string) (pushes : list string) : Automata :=
  {| state := "q0"; stack := [STACK_END];
     transitions :=
       dict_display
         [("q0", dict_display [(mkInput "a" STACK_END, mkValue target pushes)])];
     states := ["q0"]; alphabet := ["a"];
     final_states := []; rejecting_states := [];
     initial_state := "q0" |}.

(** [s.count(x)] for a one-character [x], on the list of the characters
    of [s]. *)
Definition count (input_string : list string) (x : string) : nat :=
  length (filter (λ y, y = x) input_string).

(** The configurations the automaton of the [__main__] block goes through
    on binary input: state q1 when [odd] and q0 otherwise, and a stack made
    of the sentinel below [k] copies of 0 (when [zeros]) or of 1. *)
Definition digit (zeros : bool) : string := if zeros then "0" else "1".

Definition config (odd zeros : bool) (k : nat) : Automata :=
  {| state := if odd then "q1" else "q0";
     stack := STACK_END :: replicate k (digit zeros);
     transitions := transition_function;
     states := ["q0"; "q1"; "qR"; "qA"];
     alphabet := ["0"; "1"; "<"];
     final_states := ["qA"];
     rejecting_states := ["qR"];
     initial_state := "q0" |}.

(** What a configuration records: the number of 0s read minus twice the
    number of 1s read. *)
Definition surplus (odd zeros : bool) (k : nat) : Z :=
  ((if zeros then 2 * Z.of_nat k else - (2 * Z.of_nat k))
   - (if odd then 1 else 0))%Z.

(** Every character of [s] satisfies [P]. *)
Fixpoint all_chars (P : ascii → bool) (s : string) : bool :=
  match s with
  | String c s' => P c && all_chars P s'
  | EmptyString => true
  end.

(** The names that open the section lines of a definition file. *)
Definition section_names : list string :=
  ["states"; "alphabet"; "initial_state"; "final_states";
   "rejecting_states"; "transition_function"].

(** [sep.join(items)] *)
Fixpoint join (sep : string) (items : list string) : string :=
  match items with
  | [] => EmptyString
  | x :: rest =>
    match rest with
    | [] => x
    | _ => x +:+ sep +:+ join sep rest
    end
  end.

(** The text of a transition line, as the grammar has it and as
    [__transition_function_to_string] writes it (without the indentation):
    [(input_symbol, stack_top) -> next_state [push, push, ...]]. *)
Definition transition_text (input_symbol stack_top next_state : string)
    (pushes : list string) : string :=
  "(" +:+ input_symbol +:+ ", " +:+ stack_top +:+ ") -> " +:+ next_state
  +:+ " [" +:+ join ", " pushes +:+ "]".

(** The text of an alphabet line. *)
Definition alphabet_text (symbols : list string) : string :=
  "alphabet: " +:+ join ", " symbols.

(** The characters a symbol is written with in a definition file: no white
    space, no comma, colon, parenthesis or square bracket. *)
Definition plain (c : ascii) : bool :=
  negb (is_space c)
  && negb (bool_decide (c ∈ [","; ":"; "("; ")"; "["; "]"]%char)).

(** A symbol as written in a definition file: a non-empty run of plain
    characters. *)
Definition is_token (s : string) : bool :=
  match s with
  | EmptyString => false
  | String _ _ => all_chars plain s
  end.

(** The substitution of the reserved names, in the words of the
    specification: the token STACK_END stands for the stack-bottom sentinel,
    the token INPUT_END for the input-end marker, any other token for
    itself. *)
Definition reserved (token : string) : string :=
  if bool_decide (token = "STACK_END") then STACK_END
  else if bool_decide (token = "INPUT_END") then INPUT_END
  else token.

(** [s] has no character [c]. *)
Definition lacks (c : ascii) (s : string) : bool :=
  all_chars (λ d, negb (Ascii.eqb d c)) s.

(** The lines of a small definition file. *)
Definition nl : string := String "010" EmptyString.

Definition sample_lines : list string :=
  map (λ l, l +:+ nl)
  ["# a sample definition"; "";
   "states: q0, q1, qR, qA";
   "alphabet: 0, 1, INPUT_END";
   "initial_state: q0";
   "final_states: qA";
   "rejecting_states: qR";
   "transition_function:";
   "    q0:";
   "        (0, STACK_END) -> q1 [STACK_END, 0]";
   "        (INPUT_END, STACK_END) -> qA [STACK_END]";
   "        (1, 0) -> q0 []"].

(** The automaton [create_from_file] builds from [sample_lines]. *)
Definition sample_automata : Automata :=
  match create_from_file sample_lines with
  | Return a => a
  | Raise _ => automata
  end.

(** The local variables after some lines. *)
Definition sample_locals (lines : list string) : locals :=
  match for_lines initial_locals lines with
  | Return v => v
  | Raise _ => initial_locals
  end.

(** ** Notions for the further properties of the engine *)

(** The stack holds the sentinel at its bottom and nowhere else. *)
Definition sentinel_at_bottom (stk : list string) : Prop :=
  ∃ rest, stk = STACK_END :: rest ∧ STACK_END ∉ rest.

(** An action keyed on the sentinel pushes the sentinel back first and
    nowhere else; an action keyed on another symbol does not push it. *)
Definition restores_sentinel (key : TransitionFunctionInput)
    (value : TransitionFunctionValue) : bool :=
  if bool_decide (stack_top key = STACK_END) then
    match symbols_to_push value with
    | s :: rest => bool_decide (s = STACK_END) && bool_decide (STACK_END ∉ rest)
    | [] => false
    end
  else bool_decide (STACK_END ∉ symbols_to_push value).

Definition keeps_sentinel (a : Automata) : Prop :=
  map_Forall (λ _ table,
    map_Forall (λ key value, restores_sentinel key value = true) table)
    (transitions a).

(** Every action leads to a rejecting state, to a final state or to a state
    that has a table. *)
Definition closed_table (a : Automata) : Prop :=
  map_Forall (λ _ table,
    map_Forall (λ _ value,
      next_state value ∈ rejecting_states a ∨
      next_state value ∈ final_states a ∨
      is_Some (transitions a !! next_state value)) table)
    (transitions a).

(** ** Notions for the further properties of the parser *)

(** The lines the loop passes over: comments and blank lines. *)
Definition skipped_line (line : string) : bool :=
  startswith (strip line) "#" || bool_decide (strip line = EmptyString).

(** The lines that start with the name of one of the five list sections. *)
Definition list_section_line (line : string) : bool :=
  startswith (strip line) "states:" || startswith (strip line) "alphabet:"
  || startswith (strip line) "initial_state:"
  || startswith (strip line) "final_states:"
  || startswith (strip line) "rejecting_states:".

(** The lines that reach the last test of the loop body: they are not
    passed over, start with no section name and are no state header. *)
Definition stray_line (line : string) : bool :=
  negb (skipped_line line) && negb (list_section_line line)
  && negb (startswith (strip line) "transition_function:")
  && negb (bool_decide (is_Some (re_match state_header_re (strip line)))).

(** The lines that assign [states]. *)
Definition states_line (line : string) : bool :=
  negb (skipped_line line) && startswith (strip line) "states:".

(** Every state that has a table, and the current state of the transition
    block being read, is in the list of states. *)
Definition tables_declared (v : locals) : Prop :=
  (∀ q, is_Some (l_transition_function v !! q) → q ∈ l_states v) ∧
  (∀ cs, l_current_state v = StrValue cs → cs ∈ l_states v).

(** ** [Automata.__transition_function_to_string]

    A dictionary is given by the list of its items, in the order the
    iteration over [items()] yields them. *)

(** The line appended for one transition. *)
Definition transition_display (transition_input : TransitionFunctionInput)
    (transition_value : TransitionFunctionValue) : string :=
  let input_symbol := input_symbol transition_input in
  let stack_top := stack_top transition_input in
  let next_state := next_state transition_value in
  let stack_action := join ", " (symbols_to_push transition_value) in
  "        (" +:+ input_symbol +:+ ", " +:+ stack_top +:+ ") -> "
  +:+ next_state +:+ " [" +:+ stack_action +:+ "]".

(** The list [result] when the loops are over. *)
Definition display_result
    (transition_function :
       list (string * list (TransitionFunctionInput * TransitionFunctionValue)))
  : list string :=
  nl :: flat_map (λ '(state, transitions),
                    ("    " +:+ state +:+ ":")
                    :: map (λ '(transition_input, transition_value),
                              transition_display transition_input transition_value)
                         transitions)
          transition_function.

Definition transition_function_to_string
    (transition_function :
       list (string * list (TransitionFunctionInput * TransitionFunctionValue)))
  : string :=
  join nl (display_result transition_function).

(** The dictionary whose items are listed. *)
Definition dict_of_items
    (items : list (string * list (TransitionFunctionInput * TransitionFunctionValue)))
  : gmap string (gmap TransitionFunctionInput TransitionFunctionValue) :=
  dict_display (map (λ '(state, transitions), (state, dict_display transitions))
                    items).

(** The action of a table for a state and a key. *)
Definition action
    (tf : gmap string (gmap TransitionFunctionInput TransitionFunctionValue))
    (q : string) (key : TransitionFunctionInput)
  : option TransitionFunctionValue :=
  tf !! q ≫= λ table, table !! key.

(** A word: a non-empty run of characters of the class of the state
    names. *)
Definition is_name (s : string) : bool :=
  match s with
  | EmptyString => false
  | String _ _ => all_chars is_word s
  end.

(** A symbol written as a token that is none of the two reserved names. *)
Definition is_plain_symbol (s : string) : bool :=
  is_token s && bool_decide (s ∉ ["STACK_END"; "INPUT_END"]).

(** A transition the grammar can express as it is displayed. *)
Definition displayable_transition
    (entry : TransitionFunctionInput * TransitionFunctionValue) : bool :=
  is_token (input_symbol entry.1) && is_plain_symbol (stack_top entry.1)
  && is_name (next_state entry.2)
  && forallb is_plain_symbol (symbols_to_push entry.2).

(** A block of transitions of a state that is in [states] and whose name is
    a word other than the section names. *)
Definition displayable_block (states : list string)
    (block : string * list (TransitionFunctionInput * TransitionFunctionValue))
  : bool :=
  is_name block.1 && bool_decide (block.1 ∉ section_names)
  && bool_decide (block.1 ∈ states)
  && forallb displayable_transition block.2.

(** The table after the transitions of the listed blocks are stored one
    after the other. *)
Definition stored
    (tf : gmap string (gmap TransitionFunctionInput TransitionFunctionValue))
    (items : list (string * list (TransitionFunctionInput * TransitionFunctionValue)))
  : gmap string (gmap TransitionFunctionInput TransitionFunctionValue) :=
  foldl (λ tf '(state, transitions),
           foldl (λ tf '(key, value), store_transition tf state key value)
                 tf transitions)
        tf items.

(** Two records of local variables hold the same section lists. *)
Definition same_sections (v v' : locals) : Prop :=
  l_states v' = l_states v ∧ l_alphabet v' = l_alphabet v ∧
  l_initial_state v' = l_initial_state v ∧
  l_final_states v' = l_final_states v ∧
  l_rejecting_states v' = l_rejecting_states v.

(** The items of the dictionary [transition_function] of the [__main__]
    block, in the order of its display. *)
Definition transition_function_items
  : list (string * list (TransitionFunctionInput * TransitionFunctionValue)) :=
  [("q0", [(mkInput "0" STACK_END, mkValue "q1" [">"; "0"]);
           (mkInput "0" "0", mkValue "q1" ["0"; "0"]);
           (mkInput "0" "1", mkValue "q1" []);
           (mkInput "1" STACK_END, mkValue "q0" [">"; "1"]);
           (mkInput "1" "0", mkValue "q0" []);
           (mkInput "1" "1", mkValue "q0" ["1"; "1"]);
           (mkInput INPUT_END STACK_END, mkValue "qA" [">"]);
           (mkInput INPUT_END "0", mkValue "qR" []);
           (mkInput INPUT_END "1", mkValue "qR" [])]);
   ("q1", [(mkInput "0" STACK_END, mkValue "q0" [">"]);
           (mkInput "0" "0", mkValue "q0" ["0"]);
           (mkInput "0" "1", mkValue "q0" ["1"]);
           (mkInput "1" STACK_END, mkValue "q1" [STACK_END; "1"]);
           (mkInput "1" "0", mkValue "q1" []);
           (mkInput "1" "1", mkValue "q1" ["1"; "1"]);
           (mkInput INPUT_END STACK_END, mkValue "qR" [">"]);
           (mkInput INPUT_END "0", mkValue "qR" ["0"]);
           (mkInput INPUT_END "1", mkValue "qR" ["1"])])].

(** ** [simulate] with [debug=True]

    What [print] writes is collected, one string for each call. *)

(** [TransitionFunctionInput.__str__] *)
Definition TransitionFunctionInput_str (k : TransitionFunctionInput) : string :=
  "(input=" +:+ input_symbol k +:+ ", stack=" +:+ stack_top k +:+ ")".

(** The loop body with its [print] calls. *)
Definition loop_body_debug (a : Automata) (symbol : string)
  : iteration * list string :=
  if bool_decide (symbol ∈ alphabet a) then
    match list_pop (stack a) with
    | None => (Stop (Raise IndexError) a, [])
    | Some (top, stk) =>
      let a := set_stack a stk in
      let transition_input := mkInput symbol top in
      let printed := [TransitionFunctionInput_str transition_input] in
      match transitions a !! state a with
      | None => (Stop (Raise (KeyError (state a))) a, printed)
      | Some table =>
        match table !! transition_input with
        | Some transition_value =>
          let a := set_state a (next_state transition_value) in
          let a := set_stack a (stack a ++ symbols_to_push transition_value) in
          if bool_decide (state a ∈ rejecting_states a) then
            (Stop (Return false) a, printed ++ ["Rejecting state"])
          else if bool_decide (state a ∈ final_states a) then
            (Stop (Return true) a, printed ++ ["Accepting state"])
          else (Continue a, printed)
        | None =>
          (Stop (Return false) a,
           printed ++ ["Transition "
                       +:+ TransitionFunctionInput_str transition_input
                       +:+ " not found in state " +:+ state a])
        end
      end
    end
  else (Stop (Return false) a, ["Symbol " +:+ symbol +:+ " not in alphabet"]).

Fixpoint loop_debug (a : Automata) (input_string : list string)
  : iteration * list string :=
  match input_string with
  | [] => (Continue a, [])
  | symbol :: rest =>
    match loop_body_debug a symbol with
    | (Continue a', printed) =>
      let '(it, printed') := loop_debug a' rest in (it, printed ++ printed')
    | (Stop r a', printed) => (Stop r a', printed)
    end
  end.

(** [simulate(input_string, debug=True)]: the outcome, the object left and
    the lines printed. *)
Definition simulate_debug (a : Automata) (input_string : list string)
  : outcome bool * Automata * list string :=
  match loop_debug a input_string with
  | (Stop r a', printed) => (r, a', printed)
  | (Continue a', printed) => (after_loop a', a', printed)
  end.

(** The call returned: it raised nothing. *)
Definition returns {A} (o : outcome A) : bool :=
  match o with
  | Return _ => true
  | Raise _ => false
  end.

(** The tops [self.__stack.pop()] takes off the stack in a run of the loop:
    one for each iteration that falls through to the next. *)
Fixpoint tops_popped (a : Automata) (input_string : list string) : list string :=
  match input_string with
  | [] => []
  | symbol :: rest =>
    match loop_body a symbol, list_pop (stack a) with
    | Continue a', Some (top, _) => top :: tops_popped a' rest
    | _, _ => []
    end
  end.

(** The text of a transition line around the text [body] of its push
    list. *)
Definition transition_body_text (input_symbol stack_top next_state body : string)
  : string :=
  "(" +:+ input_symbol +:+ ", " +:+ stack_top +:+ ") -> " +:+ next_state
  +:+ " [" +:+ body +:+ "]".

(** White space that can stand inside a line: any but the newline. *)
Definition is_blank (c : ascii) : bool := is_space c && is_dot c.

(** An entry of a push list as it is written: a token, with white space
    before it and after it. *)
Definition written_entry (e : string * string * string) : string :=
  e.1.1 +:+ e.1.2 +:+ e.2.

Definition entry_token (e : string * string * string) : string := e.1.2.

Definition is_written_entry (e : string * string * string) : bool :=
  all_chars is_blank e.1.1 && is_token e.1.2 && all_chars is_blank e.2.

(** * Properties of the engine *)

Lemma list_pop_snoc {A} (l : list A) (x : A) : list_pop (l ++ [x]) = Some (x, l).
Proof.
  unfold list_pop. by rewrite last_snoc, removelast_last.
Qed.

Lemma list_pop_nil_inv {A} (l : list A) : list_pop l = None → l = [].
Proof.
  unfold list_pop. destruct (last l) eqn:E; [done|].
  intros _. by apply last_None.
Qed.

Lemma list_pop_Some {A} (l stk : list A) (x : A) :
  list_pop l = Some (x, stk) ↔ l = stk ++ [x].
Proof.
  split.
  - unfold list_pop. destruct (last l) as [y|] eqn:E; [|done].
    intros [= -> <-]. apply last_Some in E as [l' ->].
    by rewrite removelast_last.
  - intros ->. apply list_pop_snoc.
Qed.

Lemma loop_app a pre post :
  loop a (pre ++ post) =
  match loop a pre with
  | Continue a' => loop a' post
  | Stop r a' => Stop r a'
  end.
Proof.
  revert a. induction pre as [|x pre IH]; intros a; simpl; [done|].
  destruct (loop_body a x); [apply IH | done].
Qed.

(** What the loop body does when the symbol is in the alphabet, the stack is
    not empty and the current state has a transition for the key. *)
Lemma loop_body_matched a x top stk table v :
  x ∈ alphabet a →
  list_pop (stack a) = Some (top, stk) →
  transitions a !! state a = Some table →
  table !! mkInput x top = Some v →
  loop_body a x =
    if bool_decide (next_state v ∈ rejecting_states a)
    then Stop (Return false) (moved a stk v)
    else if bool_decide (next_state v ∈ final_states a)
         then Stop (Return true) (moved a stk v)
         else Continue (moved a stk v).
Proof.
  intros Hx Hpop Htab Hv. unfold loop_body.
  rewrite (bool_decide_eq_true_2 _ Hx), Hpop. simpl.
  rewrite Htab, Hv. reflexivity.
Qed.

(** [simulate] assigns the state and the stack only. *)
Lemma loop_body_same_definition a x : same_definition a (left_by (loop_body a x)).
Proof.
  unfold loop_body.
  repeat first [ done | case_bool_decide | case_match ].
Qed.

Lemma loop_same_definition a input : same_definition a (left_by (loop a input)).
Proof.
  revert a. induction input as [|x input IH]; intros a; simpl; [done|].
  pose proof (loop_body_same_definition a x) as Hx.
  destruct (loop_body a x) as [a'|r a']; simpl in *; [|done].
  destruct Hx as (? & ? & ? & ? & ? & ?), (IH a') as (? & ? & ? & ? & ? & ?).
  repeat split; congruence.
Qed.

Lemma simulate_left_by a input : (simulate a input).2 = left_by (loop a input).
Proof. unfold simulate. by destruct (loop a input). Qed.

(** C1 (the code does not do what the claim says).  [simulate] never resets
    the state and the stack: a call starts from what the previous call left.
    On the automaton of the [__main__] block the input 10 is accepted by the
    first call, which leaves the object in state q1, and rejected by the
    second; and after a call with the input 0, the input 001, which a newly
    constructed object accepts, is rejected. *)
Theorem simulate_twice_differs :
  main_automata = Return automata ∧
  (simulate automata ["1"; "0"]).1 = Return true ∧
  state (simulate automata ["1"; "0"]).2 = "q1" ∧
  (simulate (simulate automata ["1"; "0"]).2 ["1"; "0"]).1 = Return false ∧
  (simulate automata ["0"; "0"; "1"]).1 = Return true ∧
  (simulate (simulate automata ["0"]).2 ["0"; "0"; "1"]).1 = Return false.
Proof. repeat apply conj; reflexivity. Qed.

(** C3: when the loop consumes the whole input without leaving the function,
    [simulate] returns [True] exactly when the state reached is final or the
    top of the stack is the sentinel; in particular it returns [True] from a
    state that is neither final nor rejecting when the sentinel is on top. *)
Theorem simulate_after_whole_input a input a' :
  loop a input = Continue a' →
  ((simulate a input).1 = Return true ↔
     state a' ∈ final_states a' ∨ last (stack a') = Some STACK_END) ∧
  (state a' ∉ final_states a' → state a' ∉ rejecting_states a' →
     last (stack a') = Some STACK_END → simulate a input = (Return true, a')).
Proof.
  intros Hloop. unfold simulate. rewrite Hloop. simpl.
  unfold after_loop, last_item. split.
  - destruct (decide (state a' ∈ final_states a')) as [Hfin|Hfin].
    + rewrite (bool_decide_eq_true_2 _ Hfin). split; [by left | done].
    + rewrite (bool_decide_eq_false_2 _ Hfin).
      destruct (last (stack a')) as [top|].
      * destruct (decide (top = STACK_END)) as [->|Hne].
        -- rewrite bool_decide_eq_true_2 by done. split; [by right | done].
        -- rewrite bool_decide_eq_false_2 by done.
           split; [done | intros [?|[= ?]]; done].
      * split; [done | intros [?|?]; done].
  - intros Hfin _ Htop. rewrite (bool_decide_eq_false_2 _ Hfin), Htop.
    by rewrite bool_decide_eq_true_2.
Qed.

Lemma simulate_after_whole_input_witness :
  simulate (one_move "q1" [STACK_END]) ["a"]
  = (Return true,
     moved (one_move "q1" [STACK_END]) [] (mkValue "q1" [STACK_END])).
Proof.
  apply (simulate_after_whole_input (one_move "q1" [STACK_END]) ["a"]
           (moved (one_move "q1" [STACK_END]) [] (mkValue "q1" [STACK_END]))).
  - reflexivity.
  - compute_done.
  - compute_done.
  - reflexivity.
Defined.




(** C5: once a transition is matched, the new state decides: a rejecting
    state makes [simulate] return [False] on the spot, also when the state is
    final as well; otherwise a final state makes it return [True] on the
    spot.  In both cases the rest of the input is not read: the result and
    the object left behind are the same for every continuation [rest]. *)
Theorem simulate_short_circuit a pre x rest a' top stk table v :
  loop a pre = Continue a' →
  x ∈ alphabet a' →
  list_pop (stack a') = Some (top, stk) →
  transitions a' !! state a' = Some table →
  table !! mkInput x top = Some v →
  (next_state v ∈ rejecting_states a' →
     simulate a (pre ++ x :: rest) = (Return false, moved a' stk v)) ∧
  (next_state v ∉ rejecting_states a' → next_state v ∈ final_states a' →
     simulate a (pre ++ x :: rest) = (Return true, moved a' stk v)).
Proof.
  intros Hpre Hx Hpop Htab Hv. unfold simulate.
  rewrite loop_app, Hpre. simpl.
  rewrite (loop_body_matched a' x top stk table v Hx Hpop Htab Hv).
  split.
  - intros Hrej. by rewrite (bool_decide_eq_true_2 _ Hrej).
  - intros Hrej Hfin.
    by rewrite (bool_decide_eq_false_2 _ Hrej), (bool_decide_eq_true_2 _ Hfin).
Qed.

Lemma simulate_short_circuit_witness :
  simulate automata (["0"] ++ "<" :: ["0"; "0"; "1"])
  = (Return false,
     moved (simulate automata ["0"]).2 [">"] (mkValue "qR" ["0"])).
Proof.
  refine (proj1 (simulate_short_circuit automata ["0"] "<" ["0"; "0"; "1"]
                   (simulate automata ["0"]).2 "0" [">"]
                   (default ∅ (transition_function !! "q1"))
                   (mkValue "qR" ["0"]) _ _ _ _ _) _);
    first [reflexivity | compute_done].
Defined.

(** C8: when the loop reaches a symbol of the alphabet with an empty stack,
    the pop raises [IndexError]: [simulate] does not return [False]. *)
Theorem simulate_pop_empty_stack a pre x rest a' :
  loop a pre = Continue a' →
  stack a' = [] →
  x ∈ alphabet a' →
  simulate a (pre ++ x :: rest) = (Raise IndexError, a') ∧
  (simulate a (pre ++ x :: rest)).1 ≠ Return false.
Proof.
  intros Hpre Hstack Hx.
  assert (simulate a (pre ++ x :: rest) = (Raise IndexError, a')) as ->.
  { unfold simulate. rewrite loop_app, Hpre. simpl. unfold loop_body.
    by rewrite (bool_decide_eq_true_2 _ Hx), Hstack. }
  done.
Qed.

Lemma simulate_pop_empty_stack_witness :
  simulate (one_move "q0" []) (["a"] ++ "a" :: ["a"])
  = (Raise IndexError, set_stack (one_move "q0" []) []).
Proof.
  refine (proj1 (simulate_pop_empty_stack (one_move "q0" []) ["a"] "a" ["a"]
                   (set_stack (one_move "q0" []) []) _ _ _));
    compute_done.
Defined.

(** A stack underflow needs a pure pop: with a table whose actions all push
    something, a run started with a non-empty stack never raises
    [IndexError]. *)
Lemma loop_body_no_underflow a x :
  no_pure_pop a → stack a ≠ [] →
  match loop_body a x with
  | Continue a' => stack a' ≠ []
  | Stop r _ => r ≠ Raise IndexError
  end.
Proof.
  intros Hpush Hstack. unfold loop_body.
  case_bool_decide; [|done].
  destruct (list_pop (stack a)) as [[top stk]|] eqn:Hpop;
    [|by apply list_pop_nil_inv in Hpop].
  simpl. destruct (transitions a !! state a) as [table|] eqn:Htable; [|done].
  destruct (table !! mkInput x top) as [v|] eqn:Hv; [|done].
  assert (stk ++ symbols_to_push v ≠ []) as Hne.
  { intros [_ Hnil]%app_eq_nil. by apply (Hpush _ _ _ _ Htable Hv). }
  by repeat case_bool_decide.
Qed.

Lemma simulate_no_underflow a input :
  no_pure_pop a → stack a ≠ [] → (simulate a input).1 ≠ Raise IndexError.
Proof.
  unfold simulate. revert a.
  induction input as [|x input IH]; intros a Hpush Hstack; simpl.
  - unfold after_loop, last_item. case_bool_decide; [done|].
    destruct (last (stack a)) eqn:Hlast; [done|]. by apply last_None in Hlast.
  - pose proof (loop_body_no_underflow a x Hpush Hstack) as Hx.
    pose proof (loop_body_same_definition a x) as (Htr & _).
    destruct (loop_body a x) as [a'|r a']; simpl in *; [|done].
    apply IH; [|done]. unfold no_pure_pop. by rewrite Htr.
Qed.

(** C9: on the object [__init__] returns, [simulate] of the empty input
    returns [True], whatever the initial state is. *)
Theorem simulate_empty_input_fresh sts al tr ini fin rej a :
  Automata_init sts al tr ini fin rej = Return a →
  simulate a [] = (Return true, a).
Proof.
  intros Hinit. unfold simulate, after_loop, last_item. simpl.
  assert (stack a = [STACK_END]) as ->.
  { unfold Automata_init in Hinit.
    destruct ini; destruct fin; simpl in Hinit;
      repeat match type of Hinit with
             | context [first_item ?l] => destruct (first_item l)
             | context [last_item ?l] => destruct (last_item l)
             end; by inversion Hinit. }
  by destruct (bool_decide (state a ∈ final_states a)).
Qed.

Lemma simulate_empty_input_fresh_witness :
  simulate automata [] = (Return true, automata).
Proof.
  apply (simulate_empty_input_fresh
           ["q0"; "q1"; "qR"; "qA"] ["0"; "1"; "<"] transition_function
           (Some "q0") (Some ["qA"]) ["qR"]).
  reflexivity.
Defined.

(** C10 as stated fails when the stack is empty: after the pure pop that
    leads [one_move "qX" []] to the state qX, which has no entry in the
    transitions, the next symbol raises [IndexError] at the pop, before the
    transitions are looked up. *)
Lemma missing_state_with_empty_stack :
  loop (one_move "qX" []) ["a"] = Continue (set_state (set_stack (one_move "qX" []) []) "qX") ∧
  transitions (one_move "qX" []) !! "qX" = None ∧
  "a" ∈ alphabet (one_move "qX" []) ∧
  (simulate (one_move "qX" []) ["a"; "a"]).1 = Raise IndexError.
Proof. repeat split; compute_done. Qed.

(** C10, amended: when the loop reaches a symbol of the alphabet in a state
    that has no entry in the transitions and the stack is not empty, the
    lookup raises [KeyError] for that state, the stack staying popped. *)
Theorem simulate_missing_state a pre x rest a' :
  loop a pre = Continue a' →
  transitions a' !! state a' = None →
  x ∈ alphabet a' →
  stack a' ≠ [] →
  simulate a (pre ++ x :: rest)
  = (Raise (KeyError (state a')), set_stack a' (removelast (stack a'))).
Proof.
  intros Hpre Hnone Hx Hstack. unfold simulate.
  rewrite loop_app, Hpre. simpl. unfold loop_body.
  rewrite (bool_decide_eq_true_2 _ Hx).
  destruct (list_pop (stack a')) as [[top stk]|] eqn:Hpop.
  - apply list_pop_Some in Hpop. rewrite Hpop, removelast_last. simpl.
    by rewrite Hnone.
  - by apply list_pop_nil_inv in Hpop.
Qed.

Lemma simulate_missing_state_witness :
  simulate (one_move "qX" [STACK_END]) (["a"] ++ "a" :: ["a"])
  = (Raise (KeyError (state (simulate (one_move "qX" [STACK_END]) ["a"]).2)),
     set_stack (simulate (one_move "qX" [STACK_END]) ["a"]).2
       (removelast (stack (simulate (one_move "qX" [STACK_END]) ["a"]).2))).
Proof.
  apply (simulate_missing_state (one_move "qX" [STACK_END]) ["a"] "a" ["a"]
           (simulate (one_move "qX" [STACK_END]) ["a"]).2).
  - reflexivity.
  - reflexivity.
  - compute_done.
  - discriminate.
Defined.

(** ** The automaton of the [__main__] block on binary input *)

Lemma config_pop odd zeros k :
  list_pop (stack (config odd zeros (S k)))
  = Some (digit zeros, STACK_END :: replicate k (digit zeros)).
Proof.
  unfold config. cbn [stack]. rewrite replicate_S_end, app_comm_cons.
  apply list_pop_snoc.
Qed.

Lemma config_eq (a : Automata) (odd zeros : bool) (k : nat) :
  state a = (if odd then "q1" else "q0") →
  stack a = STACK_END :: replicate k (digit zeros) →
  transitions a = transition_function →
  states a = ["q0"; "q1"; "qR"; "qA"] →
  alphabet a = ["0"; "1"; "<"] →
  final_states a = ["qA"] →
  rejecting_states a = ["qR"] →
  initial_state a = "q0" →
  a = config odd zeros k.
Proof. destruct a. simpl. by intros -> -> -> -> -> -> -> ->. Qed.

(** The transition taken from [config odd zeros k] on the symbol [x], when
    the table has the action [v] for the key made of [x] and the top. *)
Local Ltac take_transition top stk v :=
  erewrite (loop_body_matched _ _ top stk _ v);
  [ | compute_done | first [apply config_pop | reflexivity]
    | reflexivity | reflexivity ];
  rewrite !bool_decide_eq_false_2 by compute_done.

Local Ltac same_config :=
  first [ reflexivity
        | f_equal; apply config_eq; try reflexivity;
          cbn [stack moved symbols_to_push];
          rewrite ?replicate_S_end, ?app_nil_r, <- ?app_assoc; reflexivity ].

Lemma loop_body_0 odd zeros k :
  ∃ odd' zeros' k',
    loop_body (config odd zeros k) "0" = Continue (config odd' zeros' k') ∧
    surplus odd' zeros' k' = (surplus odd zeros k + 1)%Z.
Proof.
  destruct odd, zeros, k as [|k].
  - exists false, true, 0. split; [|reflexivity].
    take_transition ">" (@nil string) (mkValue "q0" [">"]).
    same_config.
  - exists false, true, (S k). split; [|unfold surplus; lia].
    take_transition "0" (STACK_END :: replicate k "0") (mkValue "q0" ["0"]).
    same_config.
  - exists false, false, 0. split; [|reflexivity].
    take_transition ">" (@nil string) (mkValue "q0" [">"]).
    same_config.
  - exists false, false, (S k). split; [|unfold surplus; lia].
    take_transition "1" (STACK_END :: replicate k "1") (mkValue "q0" ["1"]).
    same_config.
  - exists true, true, 1. split; [|reflexivity].
    take_transition ">" (@nil string) (mkValue "q1" [">"; "0"]).
    same_config.
  - exists true, true, (S (S k)). split; [|unfold surplus; lia].
    take_transition "0" (STACK_END :: replicate k "0") (mkValue "q1" ["0"; "0"]).
    same_config.
  - exists true, true, 1. split; [|reflexivity].
    take_transition ">" (@nil string) (mkValue "q1" [">"; "0"]).
    same_config.
  - exists true, false, k. split; [|unfold surplus; lia].
    take_transition "1" (STACK_END :: replicate k "1") (mkValue "q1" []).
    same_config.
Qed.

Lemma loop_body_1 odd zeros k :
  ∃ odd' zeros' k',
    loop_body (config odd zeros k) "1" = Continue (config odd' zeros' k') ∧
    surplus odd' zeros' k' = (surplus odd zeros k - 2)%Z.
Proof.
  destruct odd, zeros, k as [|k].
  - exists true, false, 1. split; [|reflexivity].
    take_transition ">" (@nil string) (mkValue "q1" [STACK_END; "1"]).
    same_config.
  - exists true, true, k. split; [|unfold surplus; lia].
    take_transition "0" (STACK_END :: replicate k "0") (mkValue "q1" []).
    same_config.
  - exists true, false, 1. split; [|reflexivity].
    take_transition ">" (@nil string) (mkValue "q1" [STACK_END; "1"]).
    same_config.
  - exists true, false, (S (S k)). split; [|unfold surplus; lia].
    take_transition "1" (STACK_END :: replicate k "1") (mkValue "q1" ["1"; "1"]).
    same_config.
  - exists false, false, 1. split; [|reflexivity].
    take_transition ">" (@nil string) (mkValue "q0" [">"; "1"]).
    same_config.
  - exists false, true, k. split; [|unfold surplus; lia].
    take_transition "0" (STACK_END :: replicate k "0") (mkValue "q0" []).
    same_config.
  - exists false, false, 1. split; [|reflexivity].
    take_transition ">" (@nil string) (mkValue "q0" [">"; "1"]).
    same_config.
  - exists false, false, (S (S k)). split; [|unfold surplus; lia].
    take_transition "1" (STACK_END :: replicate k "1") (mkValue "q0" ["1"; "1"]).
    same_config.
Qed.

Lemma count_cons_eq x l : count (x :: l) x = S (count l x).
Proof. unfold count. by rewrite filter_cons_True. Qed.

Lemma count_cons_ne x y l : y ≠ x → count (y :: l) x = count l x.
Proof. intros. unfold count. by rewrite filter_cons_False. Qed.

(** On binary input the loop never leaves the function, and the
    configuration reached records the 0s and 1s read. *)
Lemma loop_binary input : ∀ odd zeros k,
  Forall (λ x, x = "0" ∨ x = "1") input →
  ∃ odd' zeros' k',
    loop (config odd zeros k) input = Continue (config odd' zeros' k') ∧
    surplus odd' zeros' k'
    = (surplus odd zeros k
       + Z.of_nat (count input "0") - 2 * Z.of_nat (count input "1"))%Z.
Proof.
  induction input as [|x input IH]; intros odd zeros k Hbin.
  - exists odd, zeros, k. split; [reflexivity | unfold count; simpl; lia].
  - apply Forall_cons in Hbin as [[-> | ->] Hbin].
    + destruct (loop_body_0 odd zeros k) as (o1 & z1 & k1 & Hstep & Hs1).
      destruct (IH o1 z1 k1 Hbin) as (o2 & z2 & k2 & Hloop & Hs2).
      exists o2, z2, k2. simpl. rewrite Hstep. split; [done|].
      rewrite count_cons_eq, count_cons_ne by done. lia.
    + destruct (loop_body_1 odd zeros k) as (o1 & z1 & k1 & Hstep & Hs1).
      destruct (IH o1 z1 k1 Hbin) as (o2 & z2 & k2 & Hloop & Hs2).
      exists o2, z2, k2. simpl. rewrite Hstep. split; [done|].
      rewrite count_cons_eq, count_cons_ne by done. lia.
Qed.

(** A configuration has the sentinel on top exactly when its stack holds
    nothing else; its state is never final. *)
Lemma after_loop_config odd zeros k :
  after_loop (config odd zeros k) = Return (bool_decide (k = 0)).
Proof.
  unfold after_loop. rewrite bool_decide_eq_false_2 by (destruct odd; compute_done).
  destruct k as [|k]; [reflexivity|].
  unfold last_item, config. cbn [stack].
  rewrite replicate_S_end, app_comm_cons, last_snoc.
  by destruct zeros.
Qed.

(** On binary input the automaton of the [__main__] block returns [True]
    exactly when the number of 0s equals twice the number of 1s, or is one
    short of it. *)
Lemma simulate_binary input :
  Forall (λ x, x = "0" ∨ x = "1") input →
  (simulate automata input).1
  = Return (bool_decide (count input "0" = 2 * count input "1"
                         ∨ S (count input "0") = 2 * count input "1")).
Proof.
  intros Hbin.
  destruct (loop_binary input false true 0 Hbin) as (o & z & k & Hloop & Hs).
  change (config false true 0) with automata in Hloop.
  unfold simulate. rewrite Hloop. simpl. rewrite after_loop_config.
  f_equal. apply bool_decide_ext.
  unfold surplus in Hs. destruct o, z; lia.
Qed.

(** C2: on the object the [__main__] block constructs, [simulate] of any
    arrangement of the symbols 1,1,0,0,0,0,1,0,0 agrees with the test
    [count("0") == 2 * count("1")]. *)
Theorem simulate_permutations a p :
  main_automata = Return a →
  p ≡ₚ ["1"; "1"; "0"; "0"; "0"; "0"; "1"; "0"; "0"] →
  (simulate a p).1 = Return (bool_decide (count p "0" = 2 * count p "1")).
Proof.
  intros [= <-] Hperm.
  assert (count p "0" = 6 ∧ count p "1" = 3) as [H0 H1].
  { unfold count. by rewrite !Hperm. }
  rewrite simulate_binary.
  - f_equal. apply bool_decide_ext. lia.
  - rewrite Hperm. compute_done.
Qed.

Lemma simulate_permutations_witness :
  (simulate automata ["0"; "1"; "0"; "0"; "1"; "0"; "1"; "0"; "0"]).1
  = Return (bool_decide
              (count ["0"; "1"; "0"; "0"; "1"; "0"; "1"; "0"; "0"] "0"
               = 2 * count ["0"; "1"; "0"; "0"; "1"; "0"; "1"; "0"; "0"] "1")).
Proof.
  apply simulate_permutations; [reflexivity|].
  apply (bool_decide_unpack _). vm_compute. reflexivity.
Defined.

(** * Properties of the parser *)

Lemma append_nil (s : string) : EmptyString +:+ s = s.
Proof. reflexivity. Qed.

Lemma append_cons (c : ascii) (u s : string) :
  String c u +:+ s = String c (u +:+ s).
Proof. reflexivity. Qed.

Lemma string_drop_app (u s : string) :
  string_drop (String.length u) (u +:+ s) = s.
Proof. induction u as [|c u IH]; [by destruct s | exact IH]. Qed.

Lemma string_take_app (u s : string) :
  string_take (String.length u) (u +:+ s) = u.
Proof.
  induction u as [|c u IH]; simpl; [by destruct s | by rewrite IH].
Qed.

Lemma drop_last_app (u : string) (c : ascii) :
  drop_last (u +:+ String c EmptyString) = u.
Proof.
  induction u as [|d u IH]; [done|]. simpl.
  rewrite IH. by destruct u.
Qed.

Lemma run_length_app (cls : ascii → bool) (u s : string) :
  all_chars cls u = true →
  run_length cls (u +:+ s) = String.length u + run_length cls s.
Proof.
  induction u as [|c u IH]; simpl; [done|].
  intros [-> Hu]%andb_prop. by rewrite IH.
Qed.

(** The first success from the top is the answer of [give_back]. *)
Lemma give_back_here {X} (k min : nat) (f : nat → option X) (x : X) :
  (min ≤ k)%nat → f k = Some x → give_back k min f = Some x.
Proof.
  intros Hk Hf.
  assert ((k <? min)%nat = false) as Hlt by (apply Nat.ltb_ge; lia).
  destruct k; unfold give_back; fold (@give_back X); by rewrite Hlt, Hf.
Qed.

Lemma is_word_not_colon (c : ascii) : is_word c = true → c ≠ ":"%char.
Proof. by intros Hw ->. Qed.

Lemma is_word_not_hash (c : ascii) : is_word c = true → c ≠ "#"%char.
Proof. by intros Hw ->. Qed.

(** A line made of a word and a colon is matched by the header pattern. *)
Lemma re_match_state_header (w : string) :
  w ≠ EmptyString → all_chars is_word w = true →
  re_match state_header_re (w +:+ ":") = Some [w].
Proof.
  intros Hne Hw. unfold state_header_re, re_match.
  rewrite run_length_app by done. simpl run_length. rewrite Nat.add_0_r.
  apply give_back_here.
  - destruct w; [done | simpl; lia].
  - rewrite string_drop_app, string_take_app. reflexivity.
Qed.

(** A line made of a word and a colon starts with [name:] only when the
    word is [name]. *)
Lemma startswith_word_colon (w name : string) :
  all_chars is_word w = true →
  startswith (w +:+ ":") (name +:+ ":") = true → w = name.
Proof.
  revert name.
  induction w as [|c w IH]; intros [|d name];
    rewrite ?append_nil, ?append_cons; cbn [startswith all_chars]; try done.
  - destruct (Ascii.eqb_spec d ":"); [|done]. by destruct name.
  - intros [Hc%is_word_not_colon _]%andb_prop.
    by destruct (Ascii.eqb_spec ":" c).
  - intros [Hc Hw]%andb_prop. destruct (Ascii.eqb_spec d c) as [->|]; [|done].
    intros Hp. f_equal. by apply IH.
Qed.

Lemma startswith_section_name (w name : string) :
  all_chars is_word w = true → w ∉ section_names → name ∈ section_names →
  startswith (w +:+ ":") (name +:+ ":") = false.
Proof.
  intros Hw Hnot Hin.
  destruct (startswith (w +:+ ":") (name +:+ ":")) eqn:E; [|done].
  apply startswith_word_colon in E; [|done]. by subst.
Qed.

(** What the loop body does on a state header. *)
Lemma line_body_state_header (v : locals) (line w : string) :
  strip line = w +:+ ":" →
  w ≠ EmptyString → all_chars is_word w = true →
  w ∉ section_names →
  line_body v line =
    if bool_decide (w ∈ l_states v)
    then Return {| l_states := l_states v; l_alphabet := l_alphabet v;
                   l_initial_state := l_initial_state v;
                   l_final_states := l_final_states v;
                   l_rejecting_states := l_rejecting_states v;
                   l_transition_function := l_transition_function v;
                   l_current_state := StrValue w |}
    else Raise (ValueError w (l_states v)).
Proof.
  intros Hline Hne Hw Hsec. unfold line_body. rewrite Hline.
  assert (startswith (w +:+ ":") "#" = false) as ->.
  { destruct w as [|c w]; [done|]. simpl in Hw. apply andb_prop in Hw as [Hc _].
    apply is_word_not_hash in Hc. rewrite append_cons. cbn [startswith].
    by destruct (Ascii.eqb_spec "#" c). }
  rewrite bool_decide_eq_false_2 by (by destruct w).
  cbn [orb].
  replace (startswith (w +:+ ":") "states:") with false
    by (symmetry; apply (startswith_section_name w "states"); done || compute_done).
  replace (startswith (w +:+ ":") "alphabet:") with false
    by (symmetry; apply (startswith_section_name w "alphabet"); done || compute_done).
  replace (startswith (w +:+ ":") "initial_state:") with false
    by (symmetry; apply (startswith_section_name w "initial_state"); done || compute_done).
  replace (startswith (w +:+ ":") "final_states:") with false
    by (symmetry; apply (startswith_section_name w "final_states"); done || compute_done).
  replace (startswith (w +:+ ":") "rejecting_states:") with false
    by (symmetry; apply (startswith_section_name w "rejecting_states"); done || compute_done).
  replace (startswith (w +:+ ":") "transition_function:") with false
    by (symmetry; apply (startswith_section_name w "transition_function"); done || compute_done).
  rewrite re_match_state_header by done.
  rewrite bool_decide_eq_true_2 by eauto.
  by rewrite (drop_last_app w ":").
Qed.

Lemma for_lines_app (v : locals) (pre post : list string) :
  for_lines v (pre ++ post) = (v' ← for_lines v pre; for_lines v' post).
Proof.
  revert v. induction pre as [|l pre IH]; intros v; simpl; [done|].
  destruct (line_body v l); simpl; [apply IH | done].
Qed.

(** C6 as stated fails for the six section names.  A line made of a section
    name and a colon matches the pattern of state headers, and the name is
    not among the declared states, yet the line is taken by the test of its
    section, which comes first: no error is raised and an automaton is
    built. *)
Lemma section_name_header_not_validated :
  Forall (λ name,
            is_Some (re_match state_header_re (name +:+ ":")) ∧
            (name ∉ l_states (sample_locals (take 8 sample_lines))) ∧
            returns (create_from_file (take 8 sample_lines ++ [name +:+ ":"]))
            = true)
         section_names.
Proof. compute_done. Qed.

(** C6, amended: when the parser, having read the lines [pre] without error,
    meets a state header (a line that, stripped, is a word followed by a
    colon) whose word is none of the six section names and is not in the
    list of states read so far, it raises the [ValueError] that carries the
    word and that list; the remaining lines are not read and no automaton is
    built. *)
Theorem create_from_file_undeclared_state pre line post v w :
  for_lines initial_locals pre = Return v →
  strip line = w +:+ ":" →
  w ≠ EmptyString → all_chars is_word w = true →
  w ∉ section_names →
  w ∉ l_states v →
  create_from_file (pre ++ line :: post) = Raise (ValueError w (l_states v)).
Proof.
  intros Hpre Hline Hne Hw Hsec Hundeclared. unfold create_from_file.
  rewrite for_lines_app, Hpre. simpl.
  rewrite (line_body_state_header v line w) by done.
  by rewrite bool_decide_eq_false_2.
Qed.

Lemma create_from_file_undeclared_state_witness :
  create_from_file (take 9 sample_lines ++ "    qZ:" :: drop 9 sample_lines)
  = Raise (ValueError "qZ" (l_states (sample_locals (take 9 sample_lines)))).
Proof.
  apply (create_from_file_undeclared_state
           (take 9 sample_lines) "    qZ:" (drop 9 sample_lines)
           (sample_locals (take 9 sample_lines)) "qZ").
  - vm_compute. reflexivity.
  - vm_compute. reflexivity.
  - discriminate.
  - vm_compute. reflexivity.
  - compute_done.
  - compute_done.
Defined.

(** A header whose word is a section name is read as that section's line:
    here the line resets the alphabet and no error is raised. *)
Example section_name_as_header :
  for_lines initial_locals (take 8 sample_lines ++ ["alphabet:"])
  = Return (mkLocals ["q0"; "q1"; "qR"; "qA"] [""] (Some "q0") ["qA"] ["qR"]
              ∅ NoneValue).
Proof. reflexivity. Qed.

(** ** Reading the lines the grammar describes *)

Lemma append_nil_r (s : string) : s +:+ EmptyString = s.
Proof. induction s as [|c s IH]; [done|]. by rewrite append_cons, IH. Qed.

Lemma append_assoc (s1 s2 s3 : string) :
  (s1 +:+ s2) +:+ s3 = s1 +:+ (s2 +:+ s3).
Proof.
  induction s1 as [|c s1 IH]; [done|]. by rewrite !append_cons, IH.
Qed.

Lemma all_chars_app (P : ascii → bool) (u s : string) :
  all_chars P (u +:+ s) = all_chars P u && all_chars P s.
Proof.
  induction u as [|c u IH]; [done|].
  rewrite append_cons. simpl. by rewrite IH, andb_assoc.
Qed.

Lemma all_chars_impl (P Q : ascii → bool) (s : string) :
  (∀ c, P c = true → Q c = true) →
  all_chars P s = true → all_chars Q s = true.
Proof.
  intros HPQ. induction s as [|c s IH]; [done|]. simpl.
  intros [Hc Hs]%andb_prop. by rewrite (HPQ c Hc), IH.
Qed.

Lemma string_drop_app_more (u s : string) (j : nat) :
  string_drop (String.length u + j) (u +:+ s) = string_drop j s.
Proof. induction u as [|c u IH]; [done | exact IH]. Qed.

Lemma lacks_app (c : ascii) (u s : string) :
  lacks c (u +:+ s) = lacks c u && lacks c s.
Proof. apply all_chars_app. Qed.

Lemma lacks_string_drop (c : ascii) (s : string) (j : nat) :
  lacks c s = true → lacks c (string_drop j s) = true.
Proof.
  revert s. induction j as [|j IH]; intros [|d s]; try done.
  unfold lacks. simpl. intros [_ Hs]%andb_prop. by apply IH.
Qed.

Lemma startswith_lacks (c : ascii) (l s : string) :
  lacks c s = true → startswith s (String c l) = false.
Proof.
  destruct s as [|d s]; [done|]. unfold lacks. cbn [all_chars startswith].
  intros [Hd _]%andb_prop.
  rewrite Ascii.eqb_sym. by destruct (Ascii.eqb d c).
Qed.

Lemma startswith_app (l s : string) : startswith (l +:+ s) l = true.
Proof.
  induction l as [|c l IH]; [reflexivity|]. rewrite append_cons.
  cbn [startswith]. by rewrite Ascii.eqb_refl, IH.
Qed.

(** *** The matcher *)

Lemma re_match_Lit (l : string) (p : list item) (s : string) :
  re_match (Lit l :: p) (l +:+ s) = re_match p s.
Proof. cbn [re_match]. by rewrite startswith_app, string_drop_app. Qed.

Lemma re_match_Lit_lacks (c : ascii) (l : string) (p : list item) (s : string) :
  lacks c s = true → re_match (Lit (String c l) :: p) s = None.
Proof. intros Hs. cbn [re_match]. by rewrite startswith_lacks. Qed.

Lemma give_back_unfold {X} (k min : nat) (f : nat → option X) :
  give_back k min f =
  if (k <? min)%nat then None
  else match f k with
       | Some x => Some x
       | None => match k with
                 | S k' => give_back k' min f
                 | O => None
                 end
       end.
Proof. by destruct k. Qed.

Lemma give_back_None {X} (k min : nat) (f : nat → option X) :
  (∀ j, f j = None) → give_back k min f = None.
Proof.
  intros Hf. induction k as [|k IH]; rewrite give_back_unfold, Hf;
    by destruct (_ <? _)%nat.
Qed.

(** The answer of [give_back] is the success at the largest [k0 ≤ k]. *)
Lemma give_back_first {X} (k k0 min : nat) (f : nat → option X) (x : X) :
  (min ≤ k0)%nat → (k0 ≤ k)%nat →
  (∀ j, (k0 < j)%nat → f j = None) →
  f k0 = Some x →
  give_back k min f = Some x.
Proof.
  intros Hmin Hk Hlater Hf. induction k as [|k IH].
  - assert (k0 = 0) as -> by lia. by apply give_back_here.
  - destruct (decide (k0 = S k)) as [->|Hne]; [by apply give_back_here|].
    rewrite give_back_unfold, Hlater by lia.
    destruct (Nat.ltb_spec (S k) min); [lia|]. apply IH. lia.
Qed.

(** A repetition followed by a literal stops before the literal when the
    literal cannot be matched any further to the right. *)
Lemma re_match_Many_Lit (cls : ascii → bool) (min : nat) (u l : string)
    (p : list item) (s : string) (groups : list string) :
  all_chars cls u = true →
  (min ≤ String.length u)%nat →
  (∀ j, re_match (Lit l :: p) (string_drop (S j) (l +:+ s)) = None) →
  re_match p s = Some groups →
  re_match (Many cls min :: Lit l :: p) (u +:+ l +:+ s) = Some (u :: groups).
Proof.
  intros Hu Hmin Hlater Hrest.
  change (re_match (Many cls min :: Lit l :: p) (u +:+ l +:+ s))
    with (give_back (run_length cls (u +:+ l +:+ s)) min
            (λ k, match re_match (Lit l :: p) (string_drop k (u +:+ l +:+ s)) with
                  | Some groups => Some (string_take k (u +:+ l +:+ s) :: groups)
                  | None => None
                  end)).
  apply (give_back_first _ (String.length u)).
  - done.
  - rewrite run_length_app by done. lia.
  - intros j Hj.
    replace j with (String.length u + S (j - S (String.length u))) by lia.
    by rewrite string_drop_app_more, Hlater.
  - by rewrite string_drop_app, string_take_app, re_match_Lit, Hrest.
Qed.

(** A repetition followed by a literal fails on a text that lacks the first
    character of the literal. *)
Lemma re_match_Many_Lit_lacks (cls : ascii → bool) (min : nat) (c : ascii)
    (l : string) (p : list item) (s : string) :
  lacks c s = true →
  re_match (Many cls min :: Lit (String c l) :: p) s = None.
Proof.
  intros Hs.
  change (re_match (Many cls min :: Lit (String c l) :: p) s)
    with (give_back (run_length cls s) min
            (λ k, match re_match (Lit (String c l) :: p) (string_drop k s) with
                  | Some groups => Some (string_take k s :: groups)
                  | None => None
                  end)).
  apply give_back_None. intros j.
  by rewrite re_match_Lit_lacks by (by apply lacks_string_drop).
Qed.

Lemma re_match_Many_Lit_stop (cls : ascii → bool) (min : nat) (u l : string)
    (p : list item) (s : string) (groups : list string) :
  all_chars cls u = true →
  (min ≤ String.length u)%nat →
  run_length cls (l +:+ s) = 0 →
  re_match p s = Some groups →
  re_match (Many cls min :: Lit l :: p) (u +:+ l +:+ s) = Some (u :: groups).
Proof.
  intros Hu Hmin Hstop Hrest.
  change (re_match (Many cls min :: Lit l :: p) (u +:+ l +:+ s))
    with (give_back (run_length cls (u +:+ l +:+ s)) min
            (λ k, match re_match (Lit l :: p) (string_drop k (u +:+ l +:+ s)) with
                  | Some groups => Some (string_take k (u +:+ l +:+ s) :: groups)
                  | None => None
                  end)).
  rewrite run_length_app, Hstop, Nat.add_0_r by done.
  apply give_back_here; [done|].
  by rewrite string_drop_app, string_take_app, re_match_Lit, Hrest.
Qed.

(** *** Characters of tokens and words *)

Lemma plain_not_space (c : ascii) : plain c = true → negb (is_space c) = true.
Proof. unfold plain. by intros [? _]%andb_prop. Qed.

Lemma plain_is_dot (c : ascii) : plain c = true → is_dot c = true.
Proof.
  intros Hc%plain_not_space. unfold is_dot.
  destruct (N.eqb_spec (code c) 10) as [E|]; [|done].
  unfold is_space in Hc. by rewrite E in Hc.
Qed.

Lemma plain_not (d : ascii) :
  d ∈ [","; ":"; "("; ")"; "["; "]"]%char →
  ∀ c, plain c = true → negb (Ascii.eqb c d) = true.
Proof.
  intros Hd c [_ Hc%negb_true_iff%bool_decide_eq_false]%andb_prop.
  destruct (Ascii.eqb_spec c d) as [->|]; done.
Qed.

Lemma is_word_not (d : ascii) :
  is_word d = false → ∀ c, is_word c = true → negb (Ascii.eqb c d) = true.
Proof.
  intros Hd c Hc. destruct (Ascii.eqb_spec c d) as [->|]; [congruence | done].
Qed.

Lemma is_token_inv (s : string) :
  is_token s = true → s ≠ EmptyString ∧ all_chars plain s = true.
Proof. by destruct s. Qed.

Lemma length_nonempty (s : string) : s ≠ EmptyString → (1 ≤ String.length s)%nat.
Proof. destruct s; [done | simpl; lia]. Qed.

(** The characters of a list of tokens joined by a comma and a space. *)
Lemma all_chars_join (Q : ascii → bool) (items : list string) :
  (∀ c, plain c = true → Q c = true) →
  Q ","%char = true → Q " "%char = true →
  Forall (λ x, is_token x = true) items →
  all_chars Q (join ", " items) = true.
Proof.
  intros Hplain Hcomma Hspace. induction 1 as [|x items Hx _ IH]; [done|].
  apply is_token_inv in Hx as [_ Hx].
  apply (all_chars_impl _ Q) in Hx; [|done].
  cbn [join]. destruct items as [|y items]; [done|].
  rewrite !all_chars_app, Hx, IH. cbn [all_chars].
  by rewrite Hcomma, Hspace.
Qed.

(** *** The pattern of transition lines on the text of a transition *)

Lemma re_match_Lit_unfold (l : string) (p : list item) (s : string) :
  re_match (Lit l :: p) s =
  if startswith s l then re_match p (string_drop (String.length l) s) else None.
Proof. reflexivity. Qed.

(** A literal matches nowhere in [u +:+ s] when [u] lacks its first
    character and it matches nowhere in [s]. *)
Lemma no_match_app (c : ascii) (l : string) (p : list item) (u s : string) :
  lacks c u = true →
  (∀ j, re_match (Lit (String c l) :: p) (string_drop j s) = None) →
  ∀ j, re_match (Lit (String c l) :: p) (string_drop j (u +:+ s)) = None.
Proof.
  induction u as [|d u IH]; intros Hu Hs j; [apply Hs|].
  rewrite append_cons. unfold lacks in Hu. cbn [all_chars] in Hu.
  apply andb_prop in Hu as [Hd Hu]. destruct j as [|j].
  - rewrite re_match_Lit_unfold. cbn [string_drop startswith].
    rewrite Ascii.eqb_sym. by destruct (Ascii.eqb d c).
  - cbn [string_drop]. by apply IH.
Qed.

(** The separator of the two key symbols followed by the rest of the pattern
    matches nowhere in a text without closing parenthesis. *)
Lemma no_match_without_paren (cls : ascii → bool) (min : nat) (l : string)
    (p : list item) (s : string) :
  lacks ")" s = true →
  ∀ j, re_match (Lit ", " :: Many cls min :: Lit (String ")" l) :: p)
                (string_drop j s) = None.
Proof.
  intros Hs j. rewrite re_match_Lit_unfold.
  destruct (startswith _ _); [|done].
  apply re_match_Many_Lit_lacks. by do 2 apply lacks_string_drop.
Qed.

Lemma re_match_transition_text (i t n : string) (pushes : list string) :
  is_token i = true → is_token t = true →
  n ≠ EmptyString → all_chars is_word n = true →
  Forall (λ x, is_token x = true) pushes →
  re_match transition_re (transition_text i t n pushes)
  = Some [i; t; n; join ", " pushes].
Proof.
  intros [Hi_ne Hi]%is_token_inv [Ht_ne Ht]%is_token_inv Hn_ne Hn Hpushes.
  unfold transition_re, transition_text.
  set (B := join ", " pushes).
  assert (all_chars is_dot B = true) as HB_dot
    by (by apply all_chars_join; [apply plain_is_dot|..]).
  assert (lacks ")" B = true) as HB_paren
    by (by apply (all_chars_join (λ d, negb (Ascii.eqb d ")")));
          [apply (plain_not ")"); compute_done|..]).
  rewrite re_match_Lit.
  apply re_match_Many_Lit.
  - by apply (all_chars_impl plain); [apply plain_is_dot|].
  - by apply length_nonempty.
  - intros j.
    change (string_drop (S j) (", " +:+ ?s)) with (string_drop j (" " +:+ s)).
    revert j. apply no_match_app; [done|].
    apply no_match_app;
      [by apply (all_chars_impl plain); [apply (plain_not ","); compute_done|]|].
    apply no_match_app; [done|].
    apply no_match_app;
      [by apply (all_chars_impl is_word); [apply (is_word_not ",")|]|].
    apply no_match_app; [done|].
    apply no_match_without_paren.
    by rewrite lacks_app, HB_paren.
  - apply re_match_Many_Lit.
    + by apply (all_chars_impl plain); [apply plain_is_dot|].
    + by apply length_nonempty.
    + intros j.
      change (string_drop (S j) (") -> " +:+ ?s))
        with (string_drop j (" -> " +:+ s)).
      apply re_match_Lit_lacks, lacks_string_drop.
      assert (lacks ")" n = true) as Hn_paren
        by (by apply (all_chars_impl is_word); [apply (is_word_not ")")|]).
      by rewrite !lacks_app, Hn_paren, HB_paren.
    + apply re_match_Many_Lit_stop; [done | by apply length_nonempty | done |].
      replace (B +:+ "]") with (B +:+ "]" +:+ "") by reflexivity.
      apply re_match_Many_Lit; [done | lia | | done].
      intros j. by destruct j.
Qed.

(** *** [split], [strip] and [in] on joined tokens *)

Lemma split_from_lacks (c : ascii) (sep piece u s : string) :
  lacks c u = true →
  split_from (String c sep) 0 piece (u +:+ s)
  = split_from (String c sep) 0 (piece +:+ u) s.
Proof.
  revert piece. induction u as [|d u IH]; intros piece Hu.
  - by rewrite append_nil_r.
  - unfold lacks in Hu. cbn [all_chars] in Hu. apply andb_prop in Hu as [Hd Hu].
    rewrite append_cons. cbn [split_from startswith].
    rewrite Ascii.eqb_sym. destruct (Ascii.eqb d c); [done|].
    cbn [andb]. rewrite IH by done. by rewrite append_assoc.
Qed.

Lemma is_token_lacks (d : ascii) (x : string) :
  d ∈ [","; ":"; "("; ")"; "["; "]"]%char →
  is_token x = true → lacks d x = true.
Proof.
  intros Hd [_ Hx]%is_token_inv.
  by apply (all_chars_impl plain); [apply plain_not|].
Qed.

Lemma join_nonempty (x : string) (items : list string) :
  x ≠ EmptyString → join ", " (x :: items) ≠ EmptyString.
Proof. destruct x; [done|]. by destruct items. Qed.

Lemma split_join (items : list string) :
  items ≠ [] → Forall (λ x, is_token x = true) items →
  split (join ", " items) ", " = items.
Proof.
  intros Hne Hitems. unfold split.
  induction Hitems as [|x items Hx Hitems IH]; [done|]. clear Hne.
  apply (is_token_lacks ",") in Hx; [|compute_done].
  destruct items as [|y items].
  - cbn [join]. rewrite <- (append_nil_r x) at 1.
    by rewrite split_from_lacks.
  - change (join ", " (x :: y :: items))
      with (x +:+ ", " +:+ join ", " (y :: items)).
    rewrite split_from_lacks by done.
    change (split_from ", " 0 (EmptyString +:+ x) (", " +:+ ?s))
      with (x :: split_from ", " 0 EmptyString s).
    by rewrite IH.
Qed.

Lemma rstrip_nonspace (s : string) :
  all_chars (λ c, negb (is_space c)) s = true → rstrip s = s.
Proof.
  induction s as [|c s IH]; [done|]. cbn [all_chars rstrip].
  intros [Hc Hs]%andb_prop. rewrite IH by done.
  apply negb_true_iff in Hc. rewrite Hc. by destruct s.
Qed.

Lemma rstrip_app (u x : string) :
  x ≠ EmptyString → rstrip x = x → rstrip (u +:+ x) = u +:+ x.
Proof.
  intros Hne Hx. induction u as [|c u IH]; [done|].
  rewrite append_cons. cbn [rstrip]. rewrite IH.
  destruct (u +:+ x) eqn:E; [|done]. by destruct u.
Qed.

Lemma lstrip_token_app (x s : string) :
  is_token x = true → lstrip (x +:+ s) = x +:+ s.
Proof.
  intros [Hne Hx]%is_token_inv. destruct x as [|c x]; [done|].
  rewrite append_cons. cbn [lstrip]. cbn [all_chars] in Hx.
  apply andb_prop in Hx as [Hc%plain_not_space%negb_true_iff _].
  by rewrite Hc.
Qed.

Lemma rstrip_token (x : string) : is_token x = true → rstrip x = x.
Proof.
  intros [_ Hx]%is_token_inv. apply rstrip_nonspace.
  by apply (all_chars_impl plain); [apply plain_not_space|].
Qed.

Lemma strip_token (x : string) : is_token x = true → strip x = x.
Proof.
  intros Hx. unfold strip. rewrite <- (append_nil_r x) at 1.
  rewrite lstrip_token_app, append_nil_r by done. by apply rstrip_token.
Qed.

Lemma join_cons (sep x : string) (items : list string) :
  join sep (x :: items)
  = x +:+ match items with [] => EmptyString | _ => sep +:+ join sep items end.
Proof. destruct items; [by rewrite append_nil_r | done]. Qed.

Lemma rstrip_join (items : list string) :
  Forall (λ x, is_token x = true) items →
  rstrip (join ", " items) = join ", " items.
Proof.
  induction 1 as [|x items Hx Hitems IH]; [done|].
  destruct items as [|y items]; [by apply rstrip_token|].
  change (join ", " (x :: y :: items))
    with (x +:+ ", " +:+ join ", " (y :: items)).
  rewrite <- append_assoc. apply rstrip_app; [|done].
  apply join_nonempty. inversion Hitems as [|?? Hy _]. by destruct y.
Qed.

Lemma strip_join (items : list string) :
  items ≠ [] → Forall (λ x, is_token x = true) items →
  strip (" " +:+ join ", " items) = join ", " items.
Proof.
  intros Hne Hitems. unfold strip.
  change (lstrip (" " +:+ ?s)) with (lstrip s).
  destruct Hitems as [|x items Hx Hitems]; [done|].
  rewrite join_cons, lstrip_token_app, <- join_cons by done.
  apply rstrip_join. by constructor.
Qed.

Lemma contains_app (u s sub : string) :
  contains s sub = true → contains (u +:+ s) sub = true.
Proof.
  intros Hs. induction u as [|c u IH]; [done|].
  rewrite append_cons. cbn [contains]. rewrite IH. apply orb_true_r.
Qed.

Lemma rewrite_push_entry_token (x : string) :
  is_token x = true → rewrite_push_entry x = reserved x.
Proof. intros Hx. unfold rewrite_push_entry. by rewrite (strip_token x Hx). Qed.

(** *** The loop body on an alphabet line and on a transition line *)

Lemma line_body_alphabet_text (v : locals) (line : string)
    (symbols : list string) :
  strip line = alphabet_text symbols →
  symbols ≠ [] → Forall (λ x, is_token x = true) symbols →
  line_body v line
  = Return {| l_states := l_states v; l_alphabet := symbols;
              l_initial_state := l_initial_state v;
              l_final_states := l_final_states v;
              l_rejecting_states := l_rejecting_states v;
              l_transition_function := l_transition_function v;
              l_current_state := l_current_state v |}.
Proof.
  intros Hline Hne Hsymbols. unfold line_body. rewrite Hline.
  unfold alphabet_text.
  change (startswith ("alphabet: " +:+ ?s) "#") with false.
  rewrite bool_decide_eq_false_2 by done.
  change (startswith ("alphabet: " +:+ ?s) "states:") with false.
  change (startswith ("alphabet: " +:+ ?s) "alphabet:") with true.
  cbn [orb].
  assert (lacks ":" (join ", " symbols) = true) as Hcolon
    by (by apply (all_chars_join (λ d, negb (Ascii.eqb d ":")));
          [apply (plain_not ":"); compute_done|..]).
  assert (split ("alphabet: " +:+ join ", " symbols) ":"
          = ["alphabet"; " " +:+ join ", " symbols]) as Hsplit.
  { unfold split.
    change ("alphabet: " +:+ ?s) with ("alphabet" +:+ ":" +:+ " " +:+ s).
    rewrite split_from_lacks by done.
    change (split_from ":" 0 ?piece (":" +:+ ?s))
      with (piece :: split_from ":" 0 EmptyString s).
    rewrite <- (append_nil_r (" " +:+ join ", " symbols)).
    rewrite split_from_lacks by (by rewrite lacks_app, Hcolon).
    by rewrite append_nil_r. }
  unfold field_text. rewrite Hsplit. simpl.
  by rewrite strip_join, split_join.
Qed.

Lemma line_body_transition_text (v : locals) (line cs i t n : string)
    (pushes : list string) :
  l_current_state v = StrValue cs → cs ≠ EmptyString →
  strip line = transition_text i t n pushes →
  is_token i = true → is_token t = true →
  n ≠ EmptyString → all_chars is_word n = true →
  Forall (λ x, is_token x = true) pushes →
  line_body v line
  = Return {| l_states := l_states v; l_alphabet := l_alphabet v;
              l_initial_state := l_initial_state v;
              l_final_states := l_final_states v;
              l_rejecting_states := l_rejecting_states v;
              l_transition_function :=
                store_transition (l_transition_function v) cs
                  (mkInput i (reserved t)) (mkValue n (map reserved pushes));
              l_current_state := l_current_state v |}.
Proof.
  intros Hcs Hcs_ne Hline Hi Ht Hn_ne Hn Hpushes.
  unfold line_body. rewrite Hline.
  rewrite (re_match_transition_text i t n pushes) by done.
  unfold transition_text at 1 2 3 4 5 6 7 8 9.
  change (startswith ("(" +:+ ?s) "#") with false.
  rewrite bool_decide_eq_false_2 by done.
  change (startswith ("(" +:+ ?s) "states:") with false.
  change (startswith ("(" +:+ ?s) "alphabet:") with false.
  change (startswith ("(" +:+ ?s) "initial_state:") with false.
  change (startswith ("(" +:+ ?s) "final_states:") with false.
  change (startswith ("(" +:+ ?s) "rejecting_states:") with false.
  change (startswith ("(" +:+ ?s) "transition_function:") with false.
  change (re_match state_header_re ("(" +:+ ?s)) with (@None (list string)).
  rewrite bool_decide_eq_false_2 by (by intros [? ?]).
  cbn [orb]. rewrite Hcs, (bool_decide_eq_false_2 _ Hcs_ne).
  assert (contains (transition_text i t n pushes) "->" = true) as ->.
  { unfold transition_text.
    do 4 apply contains_app. reflexivity. }
  cbn [negb andb]. unfold transition_line. do 2 f_equal; [|done].
  assert ((match
             (if bool_decide (join ", " pushes = EmptyString) then []
              else split (join ", " pushes) ", ")
           with
           | [] => if bool_decide (join ", " pushes = EmptyString) then []
                   else split (join ", " pushes) ", "
           | _ :: _ =>
               map rewrite_push_entry
                 (if bool_decide (join ", " pushes = EmptyString) then []
                  else split (join ", " pushes) ", ")
           end) = map reserved pushes) as ->; [|reflexivity].
  destruct pushes as [|x pushes]; [reflexivity|].
  rewrite bool_decide_eq_false_2.
  - rewrite split_join by done. cbn [map]. f_equal.
    + apply rewrite_push_entry_token. by inversion Hpushes.
    + apply map_ext_Forall. inversion Hpushes as [|?? _ Hrest].
      eapply Forall_impl; [exact Hrest|]. apply rewrite_push_entry_token.
  - apply join_nonempty. inversion Hpushes as [|?? Hx _]. by destruct x.
Qed.

(** *** Transition lines whose push entries have white space around them *)

Lemma re_match_transition_body_text (i t n body : string) :
  is_token i = true → is_token t = true →
  n ≠ EmptyString → all_chars is_word n = true →
  all_chars is_dot body = true → lacks ")" body = true →
  re_match transition_re (transition_body_text i t n body)
  = Some [i; t; n; body].
Proof.
  intros [Hi_ne Hi]%is_token_inv [Ht_ne Ht]%is_token_inv Hn_ne Hn
         Hbody_dot Hbody_paren.
  unfold transition_re, transition_body_text.
  rewrite re_match_Lit.
  apply re_match_Many_Lit.
  - by apply (all_chars_impl plain); [apply plain_is_dot|].
  - by apply length_nonempty.
  - intros j.
    change (string_drop (S j) (", " +:+ ?s)) with (string_drop j (" " +:+ s)).
    revert j. apply no_match_app; [done|].
    apply no_match_app;
      [by apply (all_chars_impl plain); [apply (plain_not ","); compute_done|]|].
    apply no_match_app; [done|].
    apply no_match_app;
      [by apply (all_chars_impl is_word); [apply (is_word_not ",")|]|].
    apply no_match_app; [done|].
    apply no_match_without_paren.
    by rewrite lacks_app, Hbody_paren.
  - apply re_match_Many_Lit.
    + by apply (all_chars_impl plain); [apply plain_is_dot|].
    + by apply length_nonempty.
    + intros j.
      change (string_drop (S j) (") -> " +:+ ?s))
        with (string_drop j (" -> " +:+ s)).
      apply re_match_Lit_lacks, lacks_string_drop.
      assert (lacks ")" n = true) as Hn_paren
        by (by apply (all_chars_impl is_word); [apply (is_word_not ")")|]).
      by rewrite !lacks_app, Hn_paren, Hbody_paren.
    + apply re_match_Many_Lit_stop; [done | by apply length_nonempty | done |].
      replace (body +:+ "]") with (body +:+ "]" +:+ "") by reflexivity.
      apply re_match_Many_Lit; [done | lia | | done].
      intros j. by destruct j.
Qed.

Lemma is_blank_not (d : ascii) :
  is_space d = false →
  ∀ c, is_blank c = true → negb (Ascii.eqb c d) = true.
Proof.
  intros Hd c [Hc _]%andb_prop.
  destruct (Ascii.eqb_spec c d) as [->|]; [congruence | done].
Qed.

Lemma is_written_entry_inv (e : string * string * string) :
  is_written_entry e = true →
  all_chars is_blank e.1.1 = true ∧ is_token e.1.2 = true ∧
  all_chars is_blank e.2 = true.
Proof.
  unfold is_written_entry. by intros [[? ?]%andb_prop ?]%andb_prop.
Qed.

Lemma all_chars_written_entry (Q : ascii → bool) (e : string * string * string) :
  (∀ c, plain c = true → Q c = true) →
  (∀ c, is_blank c = true → Q c = true) →
  is_written_entry e = true →
  all_chars Q (written_entry e) = true.
Proof.
  intros Hplain Hblank (Hl & [_ Ht]%is_token_inv & Hr)%is_written_entry_inv.
  unfold written_entry. rewrite !all_chars_app.
  rewrite (all_chars_impl _ Q _ Hblank Hl), (all_chars_impl _ Q _ Hplain Ht).
  by rewrite (all_chars_impl _ Q _ Hblank Hr).
Qed.

Lemma all_chars_join_written (Q : ascii → bool)
    (entries : list (string * string * string)) :
  (∀ c, plain c = true → Q c = true) →
  (∀ c, is_blank c = true → Q c = true) →
  Q ","%char = true →
  Forall (λ e, is_written_entry e = true) entries →
  all_chars Q (join ", " (map written_entry entries)) = true.
Proof.
  intros Hplain Hblank Hcomma.
  induction 1 as [|e entries He _ IH]; [done|].
  pose proof (all_chars_written_entry Q e Hplain Hblank He) as Hwritten.
  cbn [map join]. destruct (map written_entry entries) as [|y items] eqn:E;
    [done|].
  rewrite !all_chars_app, Hwritten, IH. cbn [all_chars].
  by rewrite Hcomma, (Hblank " "%char eq_refl).
Qed.

Lemma split_join_lacks (items : list string) :
  items ≠ [] → Forall (λ x, lacks "," x = true) items →
  split (join ", " items) ", " = items.
Proof.
  intros Hne Hitems. unfold split.
  induction Hitems as [|x items Hx Hitems IH]; [done|]. clear Hne.
  destruct items as [|y items].
  - cbn [join]. rewrite <- (append_nil_r x) at 1.
    by rewrite split_from_lacks.
  - change (join ", " (x :: y :: items))
      with (x +:+ ", " +:+ join ", " (y :: items)).
    rewrite split_from_lacks by done.
    change (split_from ", " 0 (EmptyString +:+ x) (", " +:+ ?s))
      with (x :: split_from ", " 0 EmptyString s).
    by rewrite IH.
Qed.

Lemma lstrip_blank (pad s : string) :
  all_chars is_blank pad = true → lstrip (pad +:+ s) = lstrip s.
Proof.
  induction pad as [|c pad IH]; [done|]. cbn [all_chars].
  intros [[Hc _]%andb_prop Hpad]%andb_prop.
  rewrite append_cons. cbn [lstrip]. rewrite Hc. by apply IH.
Qed.

Lemma rstrip_blank (u pad : string) :
  all_chars is_blank pad = true → rstrip (u +:+ pad) = rstrip u.
Proof.
  intros Hpad.
  assert (rstrip pad = EmptyString) as Hnil.
  { induction pad as [|c pad IH]; [done|]. cbn [all_chars] in Hpad.
    apply andb_prop in Hpad as [[Hc _]%andb_prop Hpad].
    cbn [rstrip]. by rewrite (IH Hpad), Hc. }
  induction u as [|c u IH]; [done|].
  rewrite append_cons. cbn [rstrip]. by rewrite IH.
Qed.

(** Trimming a written entry leaves its token. *)
Lemma strip_written_entry (e : string * string * string) :
  is_written_entry e = true → strip (written_entry e) = entry_token e.
Proof.
  intros (Hl & Ht & Hr)%is_written_entry_inv.
  unfold strip, written_entry, entry_token.
  rewrite lstrip_blank, lstrip_token_app, rstrip_blank by done.
  by apply rstrip_token.
Qed.

Lemma written_entry_nonempty (e : string * string * string) :
  is_written_entry e = true → written_entry e ≠ EmptyString.
Proof.
  intros (_ & [Hne _]%is_token_inv & _)%is_written_entry_inv.
  unfold written_entry. destruct e as [[pl tok] pr]. simpl in *.
  destruct pl; [|done]. by destruct tok.
Qed.

(** The loop body on a transition line whose push entries are written with
    white space around them. *)
Lemma line_body_transition_written (v : locals) (line cs i t n : string)
    (entries : list (string * string * string)) :
  l_current_state v = StrValue cs → cs ≠ EmptyString →
  strip line = transition_text i t n (map written_entry entries) →
  is_token i = true → is_token t = true →
  n ≠ EmptyString → all_chars is_word n = true →
  Forall (λ e, is_written_entry e = true) entries →
  line_body v line
  = Return {| l_states := l_states v; l_alphabet := l_alphabet v;
              l_initial_state := l_initial_state v;
              l_final_states := l_final_states v;
              l_rejecting_states := l_rejecting_states v;
              l_transition_function :=
                store_transition (l_transition_function v) cs
                  (mkInput i (reserved t))
                  (mkValue n (map (λ e, reserved (entry_token e)) entries));
              l_current_state := l_current_state v |}.
Proof.
  intros Hcs Hcs_ne Hline Hi Ht Hn_ne Hn Hentries.
  set (body := join ", " (map written_entry entries)).
  assert (all_chars is_dot body = true) as Hbody_dot.
  { apply all_chars_join_written; [apply plain_is_dot | | done | done].
    by intros c [_ ?]%andb_prop. }
  assert (lacks ")" body = true) as Hbody_paren.
  { apply (all_chars_join_written (λ d, negb (Ascii.eqb d ")")));
      [apply (plain_not ")"); compute_done | by apply is_blank_not | done | done]. }
  change (transition_text i t n (map written_entry entries))
    with (transition_body_text i t n body) in Hline.
  unfold line_body. rewrite Hline.
  rewrite (re_match_transition_body_text i t n body) by done.
  unfold transition_body_text.
  change (startswith ("(" +:+ ?s) "#") with false.
  rewrite bool_decide_eq_false_2 by done.
  change (startswith ("(" +:+ ?s) "states:") with false.
  change (startswith ("(" +:+ ?s) "alphabet:") with false.
  change (startswith ("(" +:+ ?s) "initial_state:") with false.
  change (startswith ("(" +:+ ?s) "final_states:") with false.
  change (startswith ("(" +:+ ?s) "rejecting_states:") with false.
  change (startswith ("(" +:+ ?s) "transition_function:") with false.
  change (re_match state_header_re ("(" +:+ ?s)) with (@None (list string)).
  rewrite bool_decide_eq_false_2 by (by intros [? ?]).
  cbn [orb]. rewrite Hcs, (bool_decide_eq_false_2 _ Hcs_ne).
  assert (contains ("(" +:+ i +:+ ", " +:+ t +:+ ") -> " +:+ n +:+ " ["
                    +:+ body +:+ "]") "->" = true) as ->.
  { do 4 apply contains_app. reflexivity. }
  cbn [negb andb]. unfold transition_line. do 2 f_equal; [|done].
  assert ((match
             (if bool_decide (body = EmptyString) then []
              else split body ", ")
           with
           | [] => if bool_decide (body = EmptyString) then []
                   else split body ", "
           | _ :: _ =>
               map rewrite_push_entry
                 (if bool_decide (body = EmptyString) then []
                  else split body ", ")
           end) = map (λ e, reserved (entry_token e)) entries) as ->;
    [|reflexivity].
  subst body. destruct entries as [|e entries]; [reflexivity|].
  inversion Hentries as [|?? He Hrest]; subst.
  rewrite bool_decide_eq_false_2.
  - rewrite split_join_lacks.
    + cbn [map]. f_equal.
      * unfold rewrite_push_entry. rewrite (strip_written_entry e He).
        reflexivity.
      * rewrite map_map. apply map_ext_Forall.
        eapply Forall_impl; [exact Hrest|]. intros e' He'. simpl.
        unfold rewrite_push_entry. by rewrite (strip_written_entry e' He').
    + done.
    + apply Forall_map. eapply Forall_impl; [exact Hentries|].
      intros e' He'. simpl.
      apply (all_chars_written_entry (λ d, negb (Ascii.eqb d ",")));
        [apply (plain_not ","); compute_done | by apply is_blank_not | done].
  - cbn [map]. destruct (map written_entry entries);
      [by apply written_entry_nonempty|].
    cbn [join]. pose proof (written_entry_nonempty e He).
    by destruct (written_entry e).
Qed.

(** C7 as stated fails.  In [sample_lines] the alphabet line lists the name
    INPUT_END and a transition line has it as input symbol: the automaton
    built has the literal name in its alphabet and in the key, not the
    marker; the names in stack-top position and in the push lists are
    replaced. *)
Lemma reserved_names_kept_in_alphabet_and_key :
  create_from_file sample_lines = Return sample_automata ∧
  alphabet sample_automata = ["0"; "1"; "INPUT_END"] ∧
  (transitions sample_automata !! "q0"
     ≫= λ table, table !! mkInput "INPUT_END" STACK_END)
  = Some (mkValue "qA" [STACK_END]) ∧
  (transitions sample_automata !! "q0"
     ≫= λ table, table !! mkInput INPUT_END STACK_END) = None ∧
  (simulate sample_automata [INPUT_END]).1 = Return false.
Proof. repeat apply conj; vm_compute; reflexivity. Qed.

(** C7, amended: the parser replaces the names STACK_END and INPUT_END by
    the reserved symbols in the stack-top position of a transition line and
    in the entries of its push list, each entry being trimmed of the white
    space around it first; the symbols of the alphabet line are stored as
    written, as is every other token: an input symbol that is none of the
    two names, the next state, a stack top or a trimmed push entry that is
    none of the two names. *)
Theorem parser_reserved_names (v : locals) (alphabet_line line : string)
    (symbols : list string) (cs i t n : string)
    (entries : list (string * string * string)) :
  strip alphabet_line = alphabet_text symbols →
  symbols ≠ [] → Forall (λ x, is_token x = true) symbols →
  l_current_state v = StrValue cs → cs ≠ EmptyString →
  strip line = transition_text i t n (map written_entry entries) →
  is_plain_symbol i = true → is_token t = true →
  n ≠ EmptyString → all_chars is_word n = true →
  Forall (λ e, is_written_entry e = true) entries →
  l_alphabet <$> line_body v alphabet_line = Return symbols ∧
  l_transition_function <$> line_body v line
  = Return (store_transition (l_transition_function v) cs
              (mkInput i (reserved t))
              (mkValue n (map (λ e, reserved (entry_token e)) entries))).
Proof.
  intros Ha Hne Hsymbols Hcs Hcs_ne Hline Hi Ht Hn_ne Hn Hentries. split.
  - by rewrite (line_body_alphabet_text v alphabet_line symbols).
  - apply andb_prop in Hi as [Hi _].
    by rewrite (line_body_transition_written v line cs i t n entries).
Qed.

Lemma parser_reserved_names_witness :
  l_alphabet <$> line_body (sample_locals (take 9 sample_lines))
                   "alphabet: 0, 1, INPUT_END"
  = Return ["0"; "1"; "INPUT_END"] ∧
  l_transition_function <$>
    line_body (sample_locals (take 9 sample_lines))
      "    (<, STACK_END) -> qA [STACK_END ,  INPUT_END, 0 ]"
  = Return (store_transition
              (l_transition_function (sample_locals (take 9 sample_lines)))
              "q0"
              (mkInput "<" (reserved "STACK_END"))
              (mkValue "qA"
                 (map (λ e, reserved (entry_token e))
                      [("", "STACK_END", " "); (" ", "INPUT_END", "");
                       ("", "0", " ")]))).
Proof.
  apply (parser_reserved_names (sample_locals (take 9 sample_lines))
           "alphabet: 0, 1, INPUT_END"
           "    (<, STACK_END) -> qA [STACK_END ,  INPUT_END, 0 ]"
           ["0"; "1"; "INPUT_END"] "q0" "<" "STACK_END" "qA"
           [("", "STACK_END", " "); (" ", "INPUT_END", ""); ("", "0", " ")]).
  - vm_compute. reflexivity.
  - discriminate.
  - compute_done.
  - vm_compute. reflexivity.
  - discriminate.
  - vm_compute. reflexivity.
  - vm_compute. reflexivity.
  - vm_compute. reflexivity.
  - discriminate.
  - vm_compute. reflexivity.
  - compute_done.
Defined.

(** * Further properties of the engine *)

(** X1: [simulate] assigns the state and the stack only: the transitions,
    the states, the alphabet, the final and rejecting states and the initial
    state of the object it leaves are those of the object it was called on,
    whatever the input and the outcome. *)
Theorem simulate_same_definition a input :
  same_definition a (simulate a input).2.
Proof. rewrite simulate_left_by. apply loop_same_definition. Qed.

(** X2: the first symbol that makes the loop leave the function decides:
    when a prefix of the input ends the run with (r, a'), by a return or by
    an exception, every longer input gives the same result and leaves the
    same object. *)
Theorem simulate_first_stop a pre rest r a' :
  loop a pre = Stop r a' →
  simulate a (pre ++ rest) = (r, a').
Proof. intros Hpre. unfold simulate. by rewrite loop_app, Hpre. Qed.

Lemma simulate_first_stop_witness :
  simulate automata (["0"; "x"] ++ ["1"; "<"])
  = (Return false, (simulate automata ["0"]).2).
Proof.
  apply (simulate_first_stop automata ["0"; "x"] ["1"; "<"]).
  reflexivity.
Defined.

(** X3: calls on one object compose.  When a first call consumes its whole
    input [u] without an early return, a second call on the same object with
    the input [v] gives what one call with the input [u ++ v] gives on the
    object as it was before the first call. *)
Theorem simulate_consecutive_calls a u v a' :
  loop a u = Continue a' →
  simulate (simulate a u).2 v = simulate a (u ++ v).
Proof.
  intros Hu. unfold simulate at 2 3. by rewrite loop_app, Hu.
Qed.

Lemma simulate_consecutive_calls_witness :
  simulate (simulate automata ["1"; "0"]).2 ["0"; "1"]
  = simulate automata (["1"; "0"] ++ ["0"; "1"]).
Proof.
  apply (simulate_consecutive_calls automata ["1"; "0"] ["0"; "1"]
           (simulate automata ["1"; "0"]).2).
  reflexivity.
Defined.

(** X4: a symbol of the alphabet for which the current state has a table but
    no action for the key (symbol, popped top) makes [simulate] return
    [False]; the object is left with the top popped off its stack. *)
Theorem simulate_no_transition a pre x rest a' top stk table :
  loop a pre = Continue a' →
  x ∈ alphabet a' →
  list_pop (stack a') = Some (top, stk) →
  transitions a' !! state a' = Some table →
  table !! mkInput x top = None →
  simulate a (pre ++ x :: rest) = (Return false, set_stack a' stk).
Proof.
  intros Hpre Hx Hpop Htable Hkey. unfold simulate.
  rewrite loop_app, Hpre. simpl. unfold loop_body.
  rewrite (bool_decide_eq_true_2 _ Hx), Hpop. simpl.
  by rewrite Htable, Hkey.
Qed.

Lemma simulate_no_transition_witness :
  simulate (one_move "q0" [STACK_END; "b"]) (["a"] ++ "a" :: ["a"])
  = (Return false,
     set_stack (simulate (one_move "q0" [STACK_END; "b"]) ["a"]).2 [STACK_END]).
Proof.
  apply (simulate_no_transition (one_move "q0" [STACK_END; "b"]) ["a"] "a" ["a"]
           (simulate (one_move "q0" [STACK_END; "b"]) ["a"]).2 "b" [STACK_END]
           (default ∅ (transitions (one_move "q0" [STACK_END; "b"]) !! "q0")));
    first [reflexivity | compute_done].
Defined.

(** ** The sentinel discipline *)

Lemma sentinel_at_bottom_pop (stk : list string) :
  sentinel_at_bottom stk →
  (stk = [STACK_END] ∧ list_pop stk = Some (STACK_END, [])) ∨
  (∃ top rest, top ≠ STACK_END ∧ (STACK_END ∉ rest) ∧
     list_pop stk = Some (top, STACK_END :: rest)).
Proof.
  intros (rest & -> & Hrest).
  destruct (list_pop rest) as [[top rest']|] eqn:Hpop.
  - right. apply list_pop_Some in Hpop as ->. exists top, rest'.
    rewrite not_elem_of_app, not_elem_of_cons in Hrest.
    destruct Hrest as (? & ? & _). repeat split; [done..|].
    rewrite app_comm_cons. apply list_pop_snoc.
  - left. apply list_pop_nil_inv in Hpop as ->. done.
Qed.

Lemma loop_body_keeps_sentinel a x :
  keeps_sentinel a → sentinel_at_bottom (stack a) →
  match loop_body a x with
  | Continue a' => sentinel_at_bottom (stack a')
  | Stop r _ => r ≠ Raise IndexError
  end.
Proof.
  intros Hkeeps Hstack. unfold loop_body.
  case_bool_decide; [|done].
  destruct (sentinel_at_bottom_pop _ Hstack)
    as [[_ Hpop] | (top & rest & Htop & Hrest & Hpop)]; rewrite Hpop; simpl.
  - destruct (transitions a !! state a) as [table|] eqn:Htable; [|done].
    destruct (table !! mkInput x STACK_END) as [v|] eqn:Hv; [|done].
    pose proof (Hkeeps _ _ Htable _ _ Hv) as Hr. unfold restores_sentinel in Hr.
    cbn [stack_top] in Hr.
    rewrite (bool_decide_eq_true_2 (STACK_END = STACK_END)) in Hr by done.
    destruct (symbols_to_push v) as [|s pushes]; [done|].
    apply andb_prop in Hr as [->%bool_decide_eq_true Hp%bool_decide_eq_true].
    repeat case_bool_decide; try done. by exists pushes.
  - destruct (transitions a !! state a) as [table|] eqn:Htable; [|done].
    destruct (table !! mkInput x top) as [v|] eqn:Hv; [|done].
    pose proof (Hkeeps _ _ Htable _ _ Hv) as Hr. unfold restores_sentinel in Hr.
    cbn [stack_top] in Hr.
    rewrite (bool_decide_eq_false_2 (top = STACK_END)) in Hr by done.
    apply bool_decide_eq_true in Hr.
    repeat case_bool_decide; try done.
    exists (rest ++ symbols_to_push v). split; [done|].
    by rewrite not_elem_of_app.
Qed.

Lemma loop_keeps_sentinel a input :
  keeps_sentinel a → sentinel_at_bottom (stack a) →
  match loop a input with
  | Continue a' => sentinel_at_bottom (stack a')
  | Stop r _ => r ≠ Raise IndexError
  end.
Proof.
  revert a. induction input as [|x input IH]; intros a Hkeeps Hstack; simpl;
    [done|].
  pose proof (loop_body_keeps_sentinel a x Hkeeps Hstack) as Hx.
  pose proof (loop_body_same_definition a x) as (Htr & _).
  destruct (loop_body a x) as [a'|r a']; simpl in *; [|done].
  apply IH; [|done]. unfold keeps_sentinel. by rewrite Htr.
Qed.

(** X5: when every action keyed on the sentinel pushes it back first and no
    action pushes it elsewhere, a run started with the sentinel at the bottom
    of the stack, and nowhere else, never pops an empty stack; whenever the
    whole input is consumed the sentinel is still at the bottom and nowhere
    else, so that [simulate] returns [True] exactly when the state reached is
    final or the stack is the sentinel alone. *)
Theorem simulate_keeps_sentinel a input :
  keeps_sentinel a → sentinel_at_bottom (stack a) →
  (simulate a input).1 ≠ Raise IndexError ∧
  ∀ a', loop a input = Continue a' →
    sentinel_at_bottom (stack a') ∧
    ((simulate a input).1 = Return true ↔
       state a' ∈ final_states a' ∨ stack a' = [STACK_END]).
Proof.
  intros Hkeeps Hstack.
  pose proof (loop_keeps_sentinel a input Hkeeps Hstack) as Hloop.
  assert (∀ a', loop a input = Continue a' →
            sentinel_at_bottom (stack a') ∧
            after_loop a'
            = Return (bool_decide (state a' ∈ final_states a'
                                   ∨ stack a' = [STACK_END]))) as Hend.
  { intros a' Ha'. rewrite Ha' in Hloop. split; [done|].
    destruct Hloop as (rest & Hstk & Hrest).
    unfold after_loop, last_item. rewrite Hstk.
    destruct (decide (state a' ∈ final_states a')) as [Hfin|Hfin].
    - rewrite (bool_decide_eq_true_2 _ Hfin).
      by rewrite bool_decide_eq_true_2 by (by left).
    - rewrite (bool_decide_eq_false_2 _ Hfin).
      destruct (list_pop rest) as [[top rest']|] eqn:Hpop.
      + apply list_pop_Some in Hpop as ->.
        rewrite app_comm_cons, last_snoc.
        rewrite not_elem_of_app, not_elem_of_cons in Hrest.
        destruct Hrest as (_ & Htop & _).
        rewrite (bool_decide_eq_false_2 (top = STACK_END)) by done.
        rewrite bool_decide_eq_false_2; [done|].
        intros [?|Heq]; [done|]. by destruct rest'.
      + apply list_pop_nil_inv in Hpop as ->. simpl.
        by rewrite bool_decide_eq_true_2 by (by right). }
  split.
  - unfold simulate. destruct (loop a input) as [a'|r a'] eqn:Ha'; simpl;
      [|done]. by rewrite (proj2 (Hend a' eq_refl)).
  - intros a' Ha'. destruct (Hend a' Ha') as [Hbottom Hafter].
    split; [done|]. unfold simulate. rewrite Ha'. simpl. rewrite Hafter.
    split.
    + intros [= Hb]. by apply bool_decide_eq_true in Hb.
    + intros Hb. by rewrite bool_decide_eq_true_2.
Qed.

Lemma simulate_keeps_sentinel_witness :
  (simulate automata ["0"; "1"; "1"; "0"]).1 ≠ Raise IndexError ∧
  ∀ a', loop automata ["0"; "1"; "1"; "0"] = Continue a' →
    sentinel_at_bottom (stack a') ∧
    ((simulate automata ["0"; "1"; "1"; "0"]).1 = Return true ↔
       state a' ∈ final_states a' ∨ stack a' = [STACK_END]).
Proof.
  apply (simulate_keeps_sentinel automata ["0"; "1"; "1"; "0"]).
  - compute_done.
  - exists []. split; [reflexivity | apply not_elem_of_nil].
Defined.

(** ** Tables closed under their actions *)

Lemma loop_body_closed_table a x :
  closed_table a → is_Some (transitions a !! state a) →
  match loop_body a x with
  | Continue a' => is_Some (transitions a' !! state a')
  | Stop r _ => ∀ k, r ≠ Raise (KeyError k)
  end.
Proof.
  intros Hclosed [table Htable]. unfold loop_body.
  case_bool_decide; [|done].
  destruct (list_pop (stack a)) as [[top stk]|]; [|done]. simpl.
  rewrite Htable.
  destruct (table !! mkInput x top) as [v|] eqn:Hv; [|done].
  repeat case_bool_decide; try done. simpl.
  by destruct (Hclosed _ _ Htable _ _ Hv) as [?|[?|?]].
Qed.

Lemma loop_closed_table a input :
  closed_table a → is_Some (transitions a !! state a) →
  match loop a input with
  | Continue a' => True
  | Stop r _ => ∀ k, r ≠ Raise (KeyError k)
  end.
Proof.
  revert a. induction input as [|x input IH]; intros a Hclosed Hstate; simpl;
    [done|].
  pose proof (loop_body_closed_table a x Hclosed Hstate) as Hx.
  pose proof (loop_body_same_definition a x) as (Htr & _ & _ & Hfin & Hrej & _).
  destruct (loop_body a x) as [a'|r a']; simpl in *; [|done].
  apply IH; [|done]. unfold closed_table. by rewrite Htr, Hfin, Hrej.
Qed.

(** The outcomes of [simulate]: a boolean, [IndexError] or [KeyError]. *)
Lemma simulate_outcomes a input :
  (∃ b, (simulate a input).1 = Return b) ∨
  (simulate a input).1 = Raise IndexError ∨
  (∃ k, (simulate a input).1 = Raise (KeyError k)).
Proof.
  unfold simulate. revert a. induction input as [|x input IH]; intros a; simpl.
  - unfold after_loop, last_item.
    repeat first [ case_bool_decide | case_match ]; simplify_eq; eauto.
  - destruct (loop_body a x) as [a'|r a'] eqn:Hx; [apply IH|]. simpl.
    unfold loop_body in Hx.
    repeat first [ case_bool_decide | case_match ]; simplify_eq; eauto.
Qed.

(** X6: when every action of the table leads to a rejecting state, to a final
    state or to a state that has a table, and the current state has a table,
    [simulate] never raises [KeyError]. *)
Theorem simulate_closed_table a input k :
  closed_table a → is_Some (transitions a !! state a) →
  (simulate a input).1 ≠ Raise (KeyError k).
Proof.
  intros Hclosed Hstate.
  pose proof (loop_closed_table a input Hclosed Hstate) as Hloop.
  unfold simulate. destruct (loop a input) as [a'|r a']; simpl; [|done].
  unfold after_loop, last_item.
  repeat first [ case_bool_decide | case_match ]; by simplify_eq.
Qed.

Lemma simulate_closed_table_witness :
  (simulate automata ["0"; "1"; "<"; "0"]).1 ≠ Raise (KeyError "qA").
Proof.
  apply (simulate_closed_table automata ["0"; "1"; "<"; "0"] "qA");
    compute_done.
Defined.

(** X7: on an automaton that keeps the sentinel discipline and whose table is
    closed under its actions, [simulate] called with the sentinel alone on
    the stack and a state that has a table returns a boolean for every
    input: it never raises. *)
Theorem simulate_returns a input :
  keeps_sentinel a → closed_table a →
  stack a = [STACK_END] → is_Some (transitions a !! state a) →
  ∃ b, (simulate a input).1 = Return b.
Proof.
  intros Hkeeps Hclosed Hstack Hstate.
  assert (sentinel_at_bottom (stack a)) as Hbottom.
  { exists []. split; [done | apply not_elem_of_nil]. }
  pose proof (loop_keeps_sentinel a input Hkeeps Hbottom) as Hs.
  pose proof (loop_closed_table a input Hclosed Hstate) as Hc.
  pose proof (simulate_outcomes a input) as Ho.
  unfold simulate in *. destruct (loop a input) as [a'|r a']; simpl in *.
  - destruct Hs as (rest & Hstk & _). unfold after_loop, last_item.
    rewrite Hstk. case_bool_decide; [eauto|].
    destruct (last (STACK_END :: rest)) eqn:E; [eauto|].
    by apply last_None in E.
  - destruct Ho as [Hb|[Hi|[k Hk]]]; [done | done | by destruct (Hc k)].
Qed.

Lemma simulate_returns_witness :
  ∃ b, (simulate automata ["0"; "1"; "<"; "0"]).1 = Return b.
Proof.
  apply (simulate_returns automata ["0"; "1"; "<"; "0"]);
    first [reflexivity | compute_done].
Defined.

(** * Further properties of the automaton of the [__main__] block *)

(** The input-end marker ends the run in every configuration reached on
    binary input: in state q0 with the sentinel alone on the stack it leads
    to the final state qA, anywhere else to the rejecting state qR. *)
Lemma loop_body_end_marker odd zeros k :
  ∃ a', loop_body (config odd zeros k) INPUT_END
        = Stop (Return (negb odd && bool_decide (k = 0))) a'.
Proof.
  destruct odd, zeros, k as [|k]; eexists.
  - by erewrite (loop_body_matched _ _ ">" [] _ (mkValue "qR" [">"]));
      [ | compute_done | reflexivity | reflexivity | reflexivity ].
  - by erewrite (loop_body_matched _ _ "0" (STACK_END :: replicate k "0") _
                   (mkValue "qR" ["0"]));
      [ | compute_done | apply config_pop | reflexivity | reflexivity ].
  - by erewrite (loop_body_matched _ _ ">" [] _ (mkValue "qR" [">"]));
      [ | compute_done | reflexivity | reflexivity | reflexivity ].
  - by erewrite (loop_body_matched _ _ "1" (STACK_END :: replicate k "1") _
                   (mkValue "qR" ["1"]));
      [ | compute_done | apply config_pop | reflexivity | reflexivity ].
  - by erewrite (loop_body_matched _ _ ">" [] _ (mkValue "qA" [">"]));
      [ | compute_done | reflexivity | reflexivity | reflexivity ].
  - by erewrite (loop_body_matched _ _ "0" (STACK_END :: replicate k "0") _
                   (mkValue "qR" []));
      [ | compute_done | apply config_pop | reflexivity | reflexivity ].
  - by erewrite (loop_body_matched _ _ ">" [] _ (mkValue "qA" [">"]));
      [ | compute_done | reflexivity | reflexivity | reflexivity ].
  - by erewrite (loop_body_matched _ _ "1" (STACK_END :: replicate k "1") _
                   (mkValue "qR" []));
      [ | compute_done | apply config_pop | reflexivity | reflexivity ].
Qed.

(** X8: on every input made of 0s and 1s, the automaton the [__main__] block
    constructs returns [True] exactly when the number of 0s is twice the
    number of 1s or one less than that: without the end marker it also
    accepts inputs such as 10. *)
Theorem main_automata_binary a input :
  main_automata = Return a →
  Forall (λ x, x = "0" ∨ x = "1") input →
  (simulate a input).1
  = Return (bool_decide (count input "0" = 2 * count input "1"
                         ∨ S (count input "0") = 2 * count input "1")).
Proof. intros [= <-]. apply simulate_binary. Qed.

Lemma main_automata_binary_witness :
  (simulate automata ["1"; "0"]).1
  = Return (bool_decide (count ["1"; "0"] "0" = 2 * count ["1"; "0"] "1"
                         ∨ S (count ["1"; "0"] "0") = 2 * count ["1"; "0"] "1")).
Proof.
  apply (main_automata_binary automata ["1"; "0"]);
    [reflexivity | compute_done].
Defined.

(** X9: when the input-end marker is appended to an input made of 0s and 1s,
    the automaton the [__main__] block constructs returns [True] exactly when
    the number of 0s is twice the number of 1s. *)
Theorem main_automata_end_marker a input :
  main_automata = Return a →
  Forall (λ x, x = "0" ∨ x = "1") input →
  (simulate a (input ++ [INPUT_END])).1
  = Return (bool_decide (count input "0" = 2 * count input "1")).
Proof.
  intros Ha Hbin.
  change main_automata with (Return automata) in Ha. injection Ha as <-.
  destruct (loop_binary input false true 0 Hbin) as (o & z & k & Hloop & Hs).
  change (config false true 0) with automata in Hloop.
  destruct (loop_body_end_marker o z k) as [a' Hend].
  unfold simulate. rewrite loop_app, Hloop. simpl. rewrite Hend. simpl.
  f_equal. unfold surplus in Hs.
  destruct o, z; simpl; try (symmetry; apply bool_decide_eq_false; lia);
    apply bool_decide_ext; lia.
Qed.

Lemma main_automata_end_marker_witness :
  (simulate automata (["1"; "0"] ++ [INPUT_END])).1
  = Return (bool_decide (count ["1"; "0"] "0" = 2 * count ["1"; "0"] "1")).
Proof.
  apply (main_automata_end_marker automata ["1"; "0"]);
    [reflexivity | compute_done].
Defined.

(** X10: an input made of 0s and 1s with twice as many 0s as 1s is accepted
    and leaves the automaton the [__main__] block constructs exactly as it
    was constructed, so that the object can be used again, as the test loop
    of the block does. *)
Theorem main_automata_balanced a input :
  main_automata = Return a →
  Forall (λ x, x = "0" ∨ x = "1") input →
  count input "0" = 2 * count input "1" →
  simulate a input = (Return true, a).
Proof.
  intros Ha Hbin Hbal.
  change main_automata with (Return automata) in Ha. injection Ha as <-.
  destruct (loop_binary input false true 0 Hbin) as (o & z & k & Hloop & Hs).
  change (config false true 0) with automata in Hloop.
  unfold surplus in Hs.
  assert (o = false ∧ k = 0) as [-> ->] by (destruct o, z; lia).
  unfold simulate. rewrite Hloop, after_loop_config.
  by destruct z.
Qed.

Lemma main_automata_balanced_witness :
  simulate automata ["0"; "1"; "0"; "1"; "0"; "0"] = (Return true, automata).
Proof.
  apply (main_automata_balanced automata ["0"; "1"; "0"; "1"; "0"; "0"]);
    [reflexivity | compute_done | reflexivity].
Defined.

(** * Further properties of the parser *)

Lemma line_body_skipped (v : locals) (line : string) :
  skipped_line line = true → line_body v line = Return v.
Proof. unfold skipped_line, line_body. by intros ->. Qed.

Lemma for_lines_skipped (v : locals) (lines : list string) :
  for_lines v (filter (λ l, skipped_line l = false) lines) = for_lines v lines.
Proof.
  revert v. induction lines as [|line lines IH]; intros v; [done|].
  destruct (skipped_line line) eqn:Hline.
  - rewrite filter_cons_False by (by rewrite Hline). simpl.
    by rewrite line_body_skipped.
  - rewrite filter_cons_True by done. simpl.
    destruct (line_body v line); simpl; [apply IH | done].
Qed.

(** X11: comments and blank lines do not matter, wherever they stand:
    [create_from_file] gives the same automaton, or raises the same
    exception, on the lines without them. *)
Theorem create_from_file_skipped_lines (lines : list string) :
  create_from_file (filter (λ l, skipped_line l = false) lines)
  = create_from_file lines.
Proof. unfold create_from_file. by rewrite for_lines_skipped. Qed.

(** X12: a definition made of comments and blank lines only, in particular
    the empty one, declares no state: [create_from_file] raises the
    [IndexError] of [states[0]] in [__init__]. *)
Theorem create_from_file_nothing_declared (lines : list string) :
  Forall (λ l, skipped_line l = true) lines →
  create_from_file lines = Raise IndexError.
Proof.
  intros Hlines. unfold create_from_file.
  assert (for_lines initial_locals lines = Return initial_locals) as ->; [|done].
  induction Hlines as [|line lines Hline _ IH]; [done|].
  simpl. by rewrite line_body_skipped.
Qed.

Lemma create_from_file_nothing_declared_witness :
  create_from_file ["# nothing here" +:+ nl; nl; "   " +:+ nl] = Raise IndexError.
Proof.
  apply (create_from_file_nothing_declared
           ["# nothing here" +:+ nl; nl; "   " +:+ nl]).
  compute_done.
Defined.

(** ** Section lines *)

Lemma startswith_inv (s p : string) :
  startswith s p = true → ∃ rest, s = p +:+ rest.
Proof.
  revert s. induction p as [|c p IH]; intros s; [by exists s|].
  destruct s as [|d s]; [done|]. cbn [startswith].
  intros [Hc Hp]%andb_prop. apply Ascii.eqb_eq in Hc as ->.
  destruct (IH s Hp) as [rest ->]. by exists rest.
Qed.

Lemma split_from_cons (sep : string) (skip : nat) (piece s : string) :
  ∃ x l, split_from sep skip piece s = x :: l.
Proof.
  revert skip piece. induction s as [|c s IH]; intros skip piece; [by eexists _, _|].
  cbn [split_from]. destruct skip; [|apply IH].
  destruct (startswith _ _); [by eexists _, _ | apply IH].
Qed.

(** The text after the colon of a section line is always found. *)
Lemma field_text_section (name line : string) :
  lacks ":" name = true →
  startswith line (name +:+ ":") = true →
  ∃ x, field_text line = Return x.
Proof.
  intros Hname [rest ->]%startswith_inv. unfold field_text, split.
  rewrite append_assoc, split_from_lacks by done.
  change (split_from ":" 0 ?piece (":" +:+ ?s))
    with (piece :: split_from ":" 0 EmptyString s).
  destruct (split_from_cons ":" 0 EmptyString rest) as (x & l & ->).
  by eexists.
Qed.

(** A comment, a blank line or a line of one of the five list sections is
    read without error and leaves the transitions and the current state of
    the transition block as they were. *)
Lemma line_body_list_section (v : locals) (line : string) :
  skipped_line line = true ∨ list_section_line line = true →
  ∃ v', line_body v line = Return v' ∧
        l_transition_function v' = l_transition_function v ∧
        l_current_state v' = l_current_state v.
Proof.
  intros [Hskip | Hsection]; [by rewrite line_body_skipped; eauto|].
  unfold list_section_line in Hsection. unfold line_body.
  destruct (startswith (strip line) "#" || bool_decide (strip line = ""));
    [by eauto|].
  destruct (startswith (strip line) "states:") eqn:H1.
  { destruct (field_text_section "states" _ eq_refl H1) as [x ->]. by eexists. }
  destruct (startswith (strip line) "alphabet:") eqn:H2.
  { destruct (field_text_section "alphabet" _ eq_refl H2) as [x ->]. by eexists. }
  destruct (startswith (strip line) "initial_state:") eqn:H3.
  { destruct (field_text_section "initial_state" _ eq_refl H3) as [x ->].
    by eexists. }
  destruct (startswith (strip line) "final_states:") eqn:H4.
  { destruct (field_text_section "final_states" _ eq_refl H4) as [x ->].
    by eexists. }
  destruct (startswith (strip line) "rejecting_states:") eqn:H5.
  { destruct (field_text_section "rejecting_states" _ eq_refl H5) as [x ->].
    by eexists. }
  done.
Qed.

(** X13: a line that is neither comment, blank, section line nor state
    header, met before any [transition_function:] line or state header,
    makes [create_from_file] raise [UnboundLocalError]: the loop reads the
    variable [current_state], which nothing has assigned yet. *)
Theorem create_from_file_stray_line (pre post : list string) (line : string) :
  Forall (λ l, skipped_line l = true ∨ list_section_line l = true) pre →
  stray_line line = true →
  create_from_file (pre ++ line :: post)
  = Raise (UnboundLocalError "current_state").
Proof.
  intros Hpre Hline. unfold create_from_file.
  assert (∃ v, for_lines initial_locals pre = Return v ∧
               l_current_state v = Unbound) as (v & Hv & Hcs).
  { assert (∀ v0, l_current_state v0 = Unbound →
              ∃ v, for_lines v0 pre = Return v ∧ l_current_state v = Unbound)
      as Hany; [|by apply Hany].
    induction Hpre as [|l pre Hl _ IH]; intros v0 Hv0; [by exists v0|].
    destruct (line_body_list_section v0 l Hl) as (v1 & Hv1 & _ & Hcs1).
    simpl. rewrite Hv1. simpl. apply IH. congruence. }
  rewrite for_lines_app, Hv. simpl.
  assert (line_body v line = Raise (UnboundLocalError "current_state")) as ->;
    [|done].
  unfold stray_line, skipped_line, list_section_line in Hline.
  unfold line_body.
  repeat match type of Hline with
         | _ && _ = true => apply andb_prop in Hline as [Hline ?]
         end.
  repeat match goal with
         | H : negb _ = true |- _ => apply negb_true_iff in H
         end.
  repeat match goal with
         | H : _ || _ = false |- _ => apply orb_false_elim in H as [H ?]
         end.
  repeat match goal with
         | H : ?b = false |- context [?b] => rewrite H
         end.
  cbn [orb]. by rewrite Hcs.
Qed.

Lemma create_from_file_stray_line_witness :
  create_from_file
    (take 7 sample_lines ++ "(0, STACK_END) -> q1 [STACK_END, 0]" :: drop 7 sample_lines)
  = Raise (UnboundLocalError "current_state").
Proof.
  apply (create_from_file_stray_line (take 7 sample_lines) (drop 7 sample_lines)
           "(0, STACK_END) -> q1 [STACK_END, 0]");
    compute_done.
Defined.

(** ** Tables belong to declared states *)

Lemma store_transition_is_Some
    (tf : gmap string (gmap TransitionFunctionInput TransitionFunctionValue))
    (cs q : string) (key : TransitionFunctionInput)
    (value : TransitionFunctionValue) :
  is_Some (store_transition tf cs key value !! q) → q = cs ∨ is_Some (tf !! q).
Proof.
  unfold store_transition. destruct (decide (cs = q)) as [->|Hne]; [by left|].
  rewrite lookup_insert_ne by done. by right.
Qed.

Lemma transition_line_tables_declared (v : locals) (cs : string)
    (groups : list string) :
  tables_declared v → l_current_state v = StrValue cs →
  tables_declared (transition_line v cs groups).
Proof.
  intros [Htables Hcurrent] Hcs. unfold transition_line.
  repeat case_match; try done;
    (split; simpl; [|done];
     intros q [->|Hq]%store_transition_is_Some;
       [by apply Hcurrent | by apply Htables]).
Qed.

(** A line that does not assign [states] keeps the tables declared. *)
Lemma line_body_tables_declared (v v' : locals) (line : string) :
  states_line line = false →
  tables_declared v →
  line_body v line = Return v' →
  tables_declared v'.
Proof.
  unfold states_line, skipped_line, line_body. intros Hline Hv.
  destruct (startswith (strip line) "#" || bool_decide (strip line = ""));
    [by intros [= <-]|].
  cbn [negb andb] in Hline. rewrite Hline.
  destruct Hv as [Htables Hcurrent].
  destruct (field_text (strip line)); cbn [mbind outcome_bind];
  repeat match goal with
         | |- (if ?b then _ else _) = _ → _ => destruct b eqn:?
         | |- match l_current_state v with _ => _ end = _ → _ =>
             destruct (l_current_state v) eqn:?
         | |- match re_match transition_re ?l with _ => _ end = _ → _ =>
             destruct (re_match transition_re l)
         end;
    intros [= <-]; try done;
    try (split; simpl; [done|]; intros cs Hc;
         first [congruence | by apply Hcurrent; congruence]).
  all: first
    [ split; simpl; [done|]; intros cs [= <-];
      match goal with
      | H : bool_decide (_ ∈ _) = true |- _ => by apply bool_decide_eq_true in H
      end
    | apply transition_line_tables_declared; [|done];
      split; [done|]; intros cs Hc; apply Hcurrent; congruence ].
Qed.

Lemma for_lines_tables_declared (v v' : locals) (lines : list string) :
  Forall (λ l, states_line l = false) lines →
  tables_declared v →
  for_lines v lines = Return v' →
  tables_declared v'.
Proof.
  intros Hlines. revert v.
  induction Hlines as [|line lines Hline _ IH]; intros v Hv; simpl;
    [by intros [= <-]|].
  destruct (line_body v line) as [v1|] eqn:Hv1; [|done]. simpl.
  apply IH. by apply (line_body_tables_declared v v1 line).
Qed.

(** X14: when no line assigns [states] once the transitions have begun, every
    state that has a table in the automaton [create_from_file] returns is in
    its list of states. *)
Theorem create_from_file_tables_declared (pre post : list string)
    (v : locals) (a : Automata) :
  for_lines initial_locals pre = Return v →
  l_transition_function v = ∅ →
  (∀ cs, l_current_state v ≠ StrValue cs) →
  Forall (λ l, states_line l = false) post →
  create_from_file (pre ++ post) = Return a →
  ∀ q, is_Some (transitions a !! q) → q ∈ states a.
Proof.
  intros Hpre Hempty Hcurrent Hpost. unfold create_from_file.
  rewrite for_lines_app, Hpre. simpl.
  destruct (for_lines v post) as [v'|] eqn:Hv'; [|done]. simpl.
  assert (tables_declared v') as [Htables _].
  { apply (for_lines_tables_declared v v' post); [done | | done].
    split; [|by intros cs ?%Hcurrent].
    intros q. rewrite Hempty, lookup_empty. by intros [? ?]. }
  unfold Automata_init. intros Ha q Hq.
  repeat case_match; simplify_eq; simpl in *; by apply Htables.
Qed.

Lemma create_from_file_tables_declared_witness :
  "q0" ∈ states sample_automata.
Proof.
  apply (create_from_file_tables_declared
           (take 3 sample_lines) (drop 3 sample_lines)
           (sample_locals (take 3 sample_lines)) sample_automata).
  - vm_compute. reflexivity.
  - vm_compute. reflexivity.
  - intros cs. vm_compute. discriminate.
  - compute_done.
  - vm_compute. reflexivity.
  - compute_done.
Defined.

(** ** Storing and finding actions *)

Lemma store_transition_action
    (tf : gmap string (gmap TransitionFunctionInput TransitionFunctionValue))
    (cs q : string) (key k : TransitionFunctionInput)
    (value : TransitionFunctionValue) :
  action (store_transition tf cs key value) q k
  = if decide (q = cs ∧ k = key) then Some value else action tf q k.
Proof.
  unfold action, store_transition.
  destruct (decide (q = cs)) as [->|Hq].
  - rewrite lookup_insert_eq. simpl.
    destruct (decide (k = key)) as [->|Hk].
    + rewrite lookup_insert_eq. by rewrite decide_True.
    + rewrite lookup_insert_ne by done. rewrite decide_False by (by intros [? ?]).
      by destruct (tf !! cs).
  - rewrite lookup_insert_ne by done. by rewrite decide_False by (by intros [? ?]).
Qed.

Lemma dict_display_snoc `{Countable K} {V} (items : list (K * V)) (k : K) (x : V) :
  dict_display (items ++ [(k, x)]) = <[k := x]> (dict_display items).
Proof. unfold dict_display. by rewrite foldl_snoc. Qed.

Lemma dict_display_lookup_None `{Countable K} {V} (items : list (K * V)) (k : K) :
  k ∉ items.*1 → dict_display items !! k = None.
Proof.
  induction items as [|[k' x] items IH] using rev_ind; [done|].
  rewrite fmap_app, not_elem_of_app. simpl. rewrite not_elem_of_cons.
  intros (Hitems & Hk & _). rewrite dict_display_snoc.
  rewrite lookup_insert_ne by done. by apply IH.
Qed.

Lemma foldl_store_action
    (tf : gmap string (gmap TransitionFunctionInput TransitionFunctionValue))
    (cs q : string) (k : TransitionFunctionInput)
    (transitions : list (TransitionFunctionInput * TransitionFunctionValue)) :
  action (foldl (λ tf '(key, value), store_transition tf cs key value)
                tf transitions) q k
  = if decide (q = cs)
    then match dict_display transitions !! k with
         | Some value => Some value
         | None => action tf q k
         end
    else action tf q k.
Proof.
  induction transitions as [|[key value] transitions IH] using rev_ind.
  - by destruct (decide (q = cs)).
  - rewrite foldl_snoc, store_transition_action, dict_display_snoc, IH.
    destruct (decide (q = cs)) as [->|Hq].
    + destruct (decide (k = key)) as [->|Hk].
      * rewrite decide_True by done. by rewrite lookup_insert_eq.
      * rewrite decide_False by (by intros [? ?]).
        by rewrite lookup_insert_ne.
    + by rewrite decide_False by (by intros [? ?]).
Qed.

Lemma dict_of_items_names
    (items : list (string * list (TransitionFunctionInput * TransitionFunctionValue))) :
  (map (λ '(state, transitions), (state, dict_display transitions)) items).*1
  = items.*1.
Proof.
  induction items as [|[cs transitions] items IH]; [done|].
  simpl. f_equal. exact IH.
Qed.

(** Stored block after block, a dictionary given by its items yields the
    same actions as the dictionary itself. *)
Lemma stored_action
    (items : list (string * list (TransitionFunctionInput * TransitionFunctionValue)))
    (q : string) (k : TransitionFunctionInput) :
  NoDup items.*1 →
  action (stored ∅ items) q k = action (dict_of_items items) q k.
Proof.
  induction items as [|[cs transitions] items IH] using rev_ind; [done|].
  rewrite fmap_app, NoDup_app. simpl. intros (Hnodup & Hfresh & _).
  unfold stored, dict_of_items in *.
  rewrite foldl_snoc, map_app. simpl. rewrite dict_display_snoc.
  rewrite foldl_store_action, IH by done.
  unfold action at 3. destruct (decide (q = cs)) as [->|Hq].
  - rewrite lookup_insert_eq. simpl.
    destruct (dict_display transitions !! k); [done|].
    unfold action. rewrite dict_display_lookup_None; [done|].
    rewrite dict_of_items_names. intros Hin.
    apply (Hfresh cs Hin). by apply list_elem_of_singleton.
  - by rewrite lookup_insert_ne.
Qed.

(** ** Reading back what [__transition_function_to_string] writes *)

Lemma is_word_not_space (c : ascii) : is_word c = true → is_space c = false.
Proof.
  intros Hw. destruct (is_space c) eqn:Hs; [|done]. exfalso.
  unfold is_word, is_space in *. cbv zeta in *.
  repeat (rewrite ?orb_true_iff, ?andb_true_iff, ?N.leb_le, ?N.eqb_eq in Hw).
  repeat (rewrite ?orb_true_iff, ?andb_true_iff, ?N.leb_le, ?N.eqb_eq in Hs).
  lia.
Qed.

Lemma is_dot_not_newline (c : ascii) :
  is_dot c = true → negb (Ascii.eqb c "010") = true.
Proof. intros Hc. by destruct (Ascii.eqb_spec c "010") as [->|]. Qed.

Lemma is_word_is_dot (c : ascii) : is_word c = true → is_dot c = true.
Proof.
  intros Hw. unfold is_dot.
  destruct (N.eqb_spec (code c) 10) as [E|]; [|done].
  unfold is_word in Hw. by rewrite E in Hw.
Qed.

Lemma is_name_inv (s : string) :
  is_name s = true → s ≠ EmptyString ∧ all_chars is_word s = true.
Proof. by destruct s. Qed.

Lemma rstrip_ends (u : string) (c : ascii) :
  is_space c = false →
  rstrip (u +:+ String c EmptyString) = u +:+ String c EmptyString.
Proof. intros Hc. apply rstrip_app; [done|]. simpl. by rewrite Hc. Qed.

Lemma strip_header (q : string) :
  is_name q = true → strip ("    " +:+ q +:+ ":") = q +:+ ":".
Proof.
  intros [Hne Hq]%is_name_inv. unfold strip.
  change (lstrip ("    " +:+ ?s)) with (lstrip s).
  destruct q as [|c q]; [done|]. rewrite append_cons. cbn [lstrip].
  cbn [all_chars] in Hq. apply andb_prop in Hq as [Hc%is_word_not_space _].
  rewrite Hc, <- append_cons. by apply rstrip_ends.
Qed.

Lemma strip_transition_display (key : TransitionFunctionInput)
    (value : TransitionFunctionValue) :
  strip (transition_display key value)
  = transition_text (input_symbol key) (stack_top key) (next_state value)
                    (symbols_to_push value).
Proof.
  unfold strip, transition_display, transition_text. cbv zeta.
  change (lstrip ("        (" +:+ ?s)) with ("(" +:+ s).
  rewrite <- !append_assoc. by apply rstrip_ends.
Qed.

Lemma reserved_plain_symbol (s : string) :
  is_plain_symbol s = true → is_token s = true ∧ reserved s = s.
Proof.
  unfold is_plain_symbol. intros [Ht Hs%bool_decide_eq_true]%andb_prop.
  split; [done|]. unfold reserved.
  rewrite !not_elem_of_cons in Hs. destruct Hs as (? & ? & _).
  by rewrite !bool_decide_eq_false_2.
Qed.

Lemma reserved_plain_symbols (pushes : list string) :
  forallb is_plain_symbol pushes = true →
  Forall (λ x, is_token x = true) pushes ∧ map reserved pushes = pushes.
Proof.
  induction pushes as [|x pushes IH]; [done|]. simpl.
  intros [[Hx Hr]%reserved_plain_symbol [Hp Hm]%IH]%andb_prop.
  split; [by constructor | by rewrite Hr, Hm].
Qed.

(** The line displayed for a transition stores that transition. *)
Lemma line_body_transition_display (v : locals) (cs : string)
    (key : TransitionFunctionInput) (value : TransitionFunctionValue) :
  l_current_state v = StrValue cs → cs ≠ EmptyString →
  displayable_transition (key, value) = true →
  line_body v (transition_display key value)
  = Return {| l_states := l_states v; l_alphabet := l_alphabet v;
              l_initial_state := l_initial_state v;
              l_final_states := l_final_states v;
              l_rejecting_states := l_rejecting_states v;
              l_transition_function :=
                store_transition (l_transition_function v) cs key value;
              l_current_state := l_current_state v |}.
Proof.
  intros Hcs Hne. unfold displayable_transition. simpl.
  intros [[[Hi [Ht Hrt]%reserved_plain_symbol]%andb_prop
            [Hn_ne Hn]%is_name_inv]%andb_prop
           [Hp Hrp]%reserved_plain_symbols]%andb_prop.
  rewrite (line_body_transition_text v _ cs (input_symbol key) (stack_top key)
             (next_state value) (symbols_to_push value));
    [|done|done|apply strip_transition_display|done..].
  rewrite Hrt, Hrp. by destruct key, value.
Qed.

Lemma for_lines_transitions (cs : string)
    (transitions : list (TransitionFunctionInput * TransitionFunctionValue)) :
  cs ≠ EmptyString →
  forallb displayable_transition transitions = true →
  ∀ v, l_current_state v = StrValue cs →
  ∃ v', for_lines v (map (λ '(key, value), transition_display key value)
                         transitions) = Return v' ∧
        same_sections v v' ∧ l_current_state v' = StrValue cs ∧
        l_transition_function v'
        = foldl (λ tf '(key, value), store_transition tf cs key value)
                (l_transition_function v) transitions.
Proof.
  intros Hne. induction transitions as [|[key value] transitions IH];
    intros Hall v Hcs.
  - by exists v.
  - simpl in Hall. apply andb_prop in Hall as [Hentry Hall].
    cbn [map for_lines].
    rewrite (line_body_transition_display v cs key value) by done.
    cbn [mbind outcome_bind].
    edestruct (IH Hall) as (v' & Hv' & Hsections & Hcs' & Htf);
      [|exists v'; split; [exact Hv'|]]; [done|].
    repeat split; try apply Hsections; done.
Qed.

(** The lines displayed for a state: its header and its transitions. *)
Lemma for_lines_block (v : locals) (cs : string)
    (transitions : list (TransitionFunctionInput * TransitionFunctionValue)) :
  displayable_block (l_states v) (cs, transitions) = true →
  ∃ v', for_lines v (("    " +:+ cs +:+ ":")
                     :: map (λ '(key, value), transition_display key value)
                            transitions) = Return v' ∧
        same_sections v v' ∧
        l_transition_function v'
        = foldl (λ tf '(key, value), store_transition tf cs key value)
                (l_transition_function v) transitions.
Proof.
  unfold displayable_block. simpl.
  intros [[[Hname Hsec%bool_decide_eq_true]%andb_prop
            Hin%bool_decide_eq_true]%andb_prop Hall]%andb_prop.
  pose proof (is_name_inv _ Hname) as [Hne Hword].
  cbn [for_lines].
  rewrite (line_body_state_header v _ cs (strip_header cs Hname) Hne Hword Hsec).
  rewrite (bool_decide_eq_true_2 _ Hin). cbn [mbind outcome_bind].
  edestruct (for_lines_transitions cs transitions Hne Hall)
    as (v' & Hv' & Hsections & _ & Htf);
    [|exists v'; split; [exact Hv'|]]; [done|].
  split; [apply Hsections | done].
Qed.

Lemma for_lines_blocks
    (items : list (string * list (TransitionFunctionInput * TransitionFunctionValue))) :
  ∀ v, forallb (displayable_block (l_states v)) items = true →
  ∃ v', for_lines v (flat_map
                       (λ '(state, transitions),
                          ("    " +:+ state +:+ ":")
                          :: map (λ '(key, value), transition_display key value)
                               transitions) items) = Return v' ∧
        same_sections v v' ∧
        l_transition_function v' = stored (l_transition_function v) items.
Proof.
  induction items as [|[cs transitions] items IH]; intros v Hall.
  - exists v. by repeat split.
  - simpl in Hall. apply andb_prop in Hall as [Hblock Hall].
    destruct (for_lines_block v cs transitions Hblock)
      as (v1 & Hv1 & Hs1 & Htf1).
    destruct (IH v1) as (v' & Hv' & Hs' & Htf').
    { by rewrite (proj1 Hs1). }
    exists v'. cbn [flat_map]. rewrite for_lines_app, Hv1.
    cbn [mbind outcome_bind]. split; [done|]. split.
    + destruct Hs1 as (? & ? & ? & ? & ?), Hs' as (? & ? & ? & ? & ?).
      repeat split; congruence.
    + rewrite Htf', Htf1. reflexivity.
Qed.

(** *** The lines of the displayed text *)

Lemma split_join_nl (lines : list string) :
  lines ≠ [] → Forall (λ l, lacks "010" l = true) lines →
  split (join nl lines) nl = lines.
Proof.
  intros Hne Hlines. unfold split, nl.
  induction Hlines as [|x lines Hx Hlines IH]; [done|]. clear Hne.
  destruct lines as [|y lines].
  - cbn [join]. rewrite <- (append_nil_r x) at 1.
    by rewrite split_from_lacks.
  - change (join (String "010" "") (x :: y :: lines))
      with (x +:+ String "010" "" +:+ join (String "010" "") (y :: lines)).
    rewrite split_from_lacks by done.
    change (split_from (String "010" "") 0 (EmptyString +:+ x)
              (String "010" "" +:+ ?s))
      with (x :: split_from (String "010" "") 0 EmptyString s).
    by rewrite IH.
Qed.

Lemma lacks_newline_word (s : string) :
  all_chars is_word s = true → lacks "010" s = true.
Proof.
  apply all_chars_impl. intros c Hc.
  by apply is_dot_not_newline, is_word_is_dot.
Qed.

Lemma lacks_newline_token (s : string) :
  is_token s = true → lacks "010" s = true.
Proof.
  intros [_ Hs]%is_token_inv. revert Hs. apply all_chars_impl.
  intros c Hc. by apply is_dot_not_newline, plain_is_dot.
Qed.

Lemma lacks_newline_transition_display (key : TransitionFunctionInput)
    (value : TransitionFunctionValue) :
  displayable_transition (key, value) = true →
  lacks "010" (transition_display key value) = true.
Proof.
  unfold displayable_transition. simpl.
  intros [[[Hi [Ht _]%reserved_plain_symbol]%andb_prop
            [_ Hn]%is_name_inv]%andb_prop
           [Hp _]%reserved_plain_symbols]%andb_prop.
  unfold transition_display. cbv zeta. rewrite !lacks_app.
  rewrite (lacks_newline_token _ Hi), (lacks_newline_token _ Ht),
    (lacks_newline_word _ Hn).
  assert (lacks "010" (join ", " (symbols_to_push value)) = true) as ->;
    [|reflexivity].
  apply (all_chars_join (λ d, negb (Ascii.eqb d "010"))); [|done..].
  intros c Hc. by apply is_dot_not_newline, plain_is_dot.
Qed.

Lemma lacks_newline_blocks (states : list string)
    (items : list (string * list (TransitionFunctionInput * TransitionFunctionValue))) :
  forallb (displayable_block states) items = true →
  Forall (λ l, lacks "010" l = true)
    (flat_map (λ '(state, transitions),
                 ("    " +:+ state +:+ ":")
                 :: map (λ '(key, value), transition_display key value)
                      transitions) items).
Proof.
  induction items as [|[cs transitions] items IH]; [by constructor|].
  simpl. unfold displayable_block at 1. simpl.
  intros [[[[[_ Hcs]%is_name_inv _]%andb_prop _]%andb_prop Hall]%andb_prop
          Hitems]%andb_prop.
  constructor.
  - by rewrite !lacks_app, (lacks_newline_word _ Hcs).
  - apply Forall_app. split; [|by apply IH].
    clear IH Hitems. induction transitions as [|[key value] transitions IHt];
      [by constructor|].
    simpl in Hall. apply andb_prop in Hall as [Hentry Hall].
    constructor; [by apply lacks_newline_transition_display | by apply IHt].
Qed.

(** The displayed text, cut at its newlines: two empty lines, then the
    lines of the blocks. *)
Lemma split_transition_function_to_string (states : list string)
    (items : list (string * list (TransitionFunctionInput * TransitionFunctionValue))) :
  forallb (displayable_block states) items = true →
  split (transition_function_to_string items) nl
  = EmptyString :: EmptyString
    :: flat_map (λ '(state, transitions),
                   ("    " +:+ state +:+ ":")
                   :: map (λ '(key, value), transition_display key value)
                        transitions) items.
Proof.
  intros Hitems%lacks_newline_blocks.
  unfold transition_function_to_string, display_result.
  destruct (flat_map _ items) as [|line lines] eqn:Hbody; [reflexivity|].
  change (join nl (nl :: line :: lines))
    with (nl +:+ nl +:+ join nl (line :: lines)).
  transitivity (EmptyString :: EmptyString
                :: split (join nl (line :: lines)) nl); [reflexivity|].
  by rewrite split_join_nl.
Qed.

(** X15: the text [__transition_function_to_string] writes for a table can
    be read back.  When the states of the table are declared words other
    than the section names, its symbols are tokens, none of them one of the
    reserved names in stack-top position or in a push list, and its next
    states are words, the loop of [create_from_file], run on the lines of
    the text from local variables with an empty table, raises no error,
    leaves the section lists as they were and ends with a table that has,
    for every state and key, the action of the displayed table. *)
Theorem transition_function_read_back (v : locals)
    (items : list (string * list (TransitionFunctionInput * TransitionFunctionValue))) :
  l_transition_function v = ∅ →
  NoDup items.*1 →
  forallb (displayable_block (l_states v)) items = true →
  ∃ v', for_lines v (split (transition_function_to_string items) nl)
        = Return v' ∧
        same_sections v v' ∧
        ∀ q key, action (l_transition_function v') q key
                 = action (dict_of_items items) q key.
Proof.
  intros Hempty Hnodup Hitems.
  rewrite (split_transition_function_to_string (l_states v)) by done.
  destruct (for_lines_blocks items v Hitems) as (v' & Hv' & Hsections & Htf).
  exists v'. split; [exact Hv' | split; [done|]].
  intros q key. rewrite Htf, Hempty. by apply stored_action.
Qed.

Lemma transition_function_read_back_witness :
  ∃ v', for_lines (sample_locals (take 8 sample_lines))
          (split (transition_function_to_string transition_function_items) nl)
        = Return v' ∧
        same_sections (sample_locals (take 8 sample_lines)) v' ∧
        ∀ q key, action (l_transition_function v') q key
                 = action (dict_of_items transition_function_items) q key.
Proof.
  apply (transition_function_read_back (sample_locals (take 8 sample_lines))
           transition_function_items).
  - vm_compute. reflexivity.
  - compute_done.
  - vm_compute. reflexivity.
Defined.

Example dict_of_transition_function_items :
  dict_of_items transition_function_items = transition_function.
Proof. reflexivity. Qed.

(** * Further properties: storing a transition, the debug output *)

(** X16: a transition line defines one action: after it the table has the
    action of the line for the current state and the key of the line, and
    for every other state and key the action it had before, so that a later
    line replaces an earlier one with the same key and touches nothing
    else. *)
Theorem transition_line_defines_one_action (v : locals)
    (line cs i t n : string) (pushes : list string) :
  l_current_state v = StrValue cs → cs ≠ EmptyString →
  strip line = transition_text i t n pushes →
  is_token i = true → is_token t = true →
  n ≠ EmptyString → all_chars is_word n = true →
  Forall (λ x, is_token x = true) pushes →
  ∃ v', line_body v line = Return v' ∧
        ∀ q key,
          action (l_transition_function v') q key
          = if decide (q = cs ∧ key = mkInput i (reserved t))
            then Some (mkValue n (map reserved pushes))
            else action (l_transition_function v) q key.
Proof.
  intros Hcs Hne Hline Hi Ht Hn_ne Hn Hpushes.
  rewrite (line_body_transition_text v line cs i t n pushes) by done.
  eexists. split; [reflexivity|]. intros q key. simpl.
  apply store_transition_action.
Qed.

Lemma transition_line_defines_one_action_witness :
  ∃ v', line_body (sample_locals (take 10 sample_lines))
          "(0, STACK_END) -> qR []" = Return v' ∧
        ∀ q key,
          action (l_transition_function v') q key
          = if decide (q = "q0" ∧ key = mkInput "0" (reserved "STACK_END"))
            then Some (mkValue "qR" (map reserved []))
            else action (l_transition_function
                           (sample_locals (take 10 sample_lines))) q key.
Proof.
  apply (transition_line_defines_one_action
           (sample_locals (take 10 sample_lines))
           "(0, STACK_END) -> qR []" "q0" "0" "STACK_END" "qR" []).
  - vm_compute. reflexivity.
  - discriminate.
  - vm_compute. reflexivity.
  - vm_compute. reflexivity.
  - vm_compute. reflexivity.
  - discriminate.
  - vm_compute. reflexivity.
  - constructor.
Defined.

Lemma loop_body_debug_erase a symbol :
  (loop_body_debug a symbol).1 = loop_body a symbol.
Proof.
  unfold loop_body_debug, loop_body.
  repeat first [ done | case_bool_decide | case_match ].
Qed.

Lemma loop_debug_erase a input : (loop_debug a input).1 = loop a input.
Proof.
  revert a. induction input as [|x input IH]; intros a; [done|]. simpl.
  rewrite <- loop_body_debug_erase.
  destruct (loop_body_debug a x) as [[a'|r a'] printed]; simpl; [|done].
  rewrite <- IH. by destruct (loop_debug a' input).
Qed.

(** X17: the debug flag only observes: with [debug=True], [simulate] returns
    the same outcome and leaves the same object as without it. *)
Theorem simulate_debug_same a input :
  (simulate_debug a input).1 = simulate a input.
Proof.
  unfold simulate_debug, simulate. rewrite <- loop_debug_erase.
  by destruct (loop_debug a input) as [[a'|r a'] printed].
Qed.

Lemma loop_body_debug_printed a symbol a' printed :
  loop_body_debug a symbol = (Continue a', printed) →
  ∃ top stk, list_pop (stack a) = Some (top, stk) ∧
             printed = [TransitionFunctionInput_str (mkInput symbol top)].
Proof.
  unfold loop_body_debug.
  repeat first [ case_bool_decide | case_match ]; intros; simplify_eq; eauto.
Qed.

(** X18: a run with [debug=True] that consumes its whole input prints one
    line for each symbol and nothing else: the key made of the symbol and of
    the top the run popped off the stack for it. *)
Theorem loop_debug_printed a input a' printed :
  loop_debug a input = (Continue a', printed) →
  length (tops_popped a input) = length input ∧
  printed = zip_with (λ symbol top,
                        TransitionFunctionInput_str (mkInput symbol top))
                     input (tops_popped a input).
Proof.
  revert a printed. induction input as [|x input IH]; intros a printed; simpl.
  - by intros [= _ <-].
  - rewrite <- (loop_body_debug_erase a x).
    destruct (loop_body_debug a x) as [[a1|r a1] printed1] eqn:Hx; [|done].
    destruct (loop_body_debug_printed a x a1 printed1 Hx)
      as (top & stk & Hpop & ->).
    destruct (loop_debug a1 input) as [it printed2] eqn:Hrest.
    intros [= -> <-]. simpl. rewrite Hpop.
    destruct (IH a1 printed2 Hrest) as [Hlen ->].
    split; [simpl; by rewrite Hlen | done].
Qed.

Lemma loop_debug_printed_witness :
  length (tops_popped automata ["0"; "1"]) = length ["0"; "1"] ∧
  ["(input=0, stack=>)"; "(input=1, stack=0)"]
  = zip_with (λ symbol top,
                TransitionFunctionInput_str (mkInput symbol top))
             ["0"; "1"] (tops_popped automata ["0"; "1"]).
Proof.
  apply (loop_debug_printed automata ["0"; "1"]
           (simulate automata ["0"; "1"]).2).
  vm_compute. reflexivity.
Defined.

(** X19: a table without pure pop cannot underflow: when every action pushes
    at least one symbol, [simulate] called with a non-empty stack never
    raises [IndexError]. *)
Theorem simulate_without_pure_pop a input :
  no_pure_pop a → stack a ≠ [] → (simulate a input).1 ≠ Raise IndexError.
Proof. apply simulate_no_underflow. Qed.

Lemma simulate_without_pure_pop_witness :
  (simulate (one_move "q0" [STACK_END; "b"]) ["a"; "a"; "a"]).1
  ≠ Raise IndexError.
Proof.
  apply (simulate_without_pure_pop (one_move "q0" [STACK_END; "b"])
           ["a"; "a"; "a"]).
  - assert (map_Forall (λ _ table,
              map_Forall (λ _ value, symbols_to_push value ≠ [])
                (table : gmap TransitionFunctionInput TransitionFunctionValue))
              (transitions (one_move "q0" [STACK_END; "b"]))) as Hall
      by compute_done.
    intros q table key value Hq Hkey. exact (Hall q table Hq key value Hkey).
  - discriminate.
Defined.
